(** * spring_yaml_sanity: duplicate detection between a base
      application.yaml and its profile overlays

    A shallow embedding of [spring_yaml_sanity.py]: the document merger
    ([deep_merge], [load_yaml_merged]), the path flattener ([flatten]) and
    the pair comparator and its error boundary ([compare_and_report]),
    followed by the properties of each.

    Modelling choices.
    - A Python [dict] keeps insertion order, and that order decides which
      leaf survives when two leaves are written at the same path, so a
      dictionary is an association list with the update-in-place /
      append-at-end behaviour of [d[k] = v] ([dict_set]) and first-match
      lookup ([dict_get]).  Python dictionaries have pairwise distinct keys;
      that is the test [distinct_keys], assumed only where
      a statement needs it.
    - Mapping keys are strings, as the annotation [YAML = Dict[str, Any]]
      has them.  The flattener uses a key only through its text [str(k)],
      so for it a key of the model stands for that text; the parser can
      hand over keys that are not strings, and two different keys can have
      the same text ([1] and ["1"]), so where a statement about [flatten]
      needs the keys of a mapping to have pairwise distinct texts, that is
      a condition it states ([plain_doc]), not something every document
      satisfies.
    - Strings are byte strings (the UTF-8 encoding); comparing UTF-8 bytes
      lexicographically is comparing code points, and [len] and slices,
      which count characters, are [py_len] and [py_take].
    - A float is a [spec_float], the mathematical content of an IEEE
      binary64 value; the program only ever compares floats, it never
      computes with them.
    - The YAML parser, the file system and [repr] are outside the program:
      they are the variables of the sections [Report] and [Folders].  So is
      the interpreter's recursion limit: [merge_raises] and [walk_raises]
      tell whether [deep_merge] and [_walk] come back.  A document that
      contains itself through YAML aliases has no finite tree; [_walk]
      never comes back from it, and it is stood for by a tree on which
      [walk_raises] gives the exception. *)

From Stdlib Require Import List String Ascii ZArith Bool Lia Arith.
From Stdlib Require Import Sorting.Sorted Sorting.Permutation.
From Stdlib Require Import Floats.SpecFloat.
From Stdlib Require Import DecimalString DecimalNat.
Import ListNotations.

Local Open Scope string_scope.
Local Open Scope list_scope.

(** ** Data model *)

(** [Scalar = Union[str, int, float, bool, None]]. *)
Inductive scalar : Type :=
| SStr (s : string)
| SInt (z : Z)
| SFloat (f : spec_float)
| SBool (b : bool)
| SNone.

(** What [yaml.safe_load_all] can hand over: a scalar, a [dict], a [list],
    or some other object (a [set], a [date], [bytes] ...). *)
#[warnings="-register-all"]
Inductive yaml : Type :=
| YScalar (s : scalar)
| YDict (items : list (string * yaml))
| YList (elems : list yaml)
| YOther.

Definition dict (V : Type) : Type := list (string * V).

(** ** Dictionaries *)

(** [d.get(k)] / [d[k]], with [None] for [k not in d]. *)
Fixpoint dict_get {V : Type} (k : string) (d : dict V) : option V :=
  match d with
  | [] => None
  | (k', v) :: d' => if String.eqb k' k then Some v else dict_get k d'
  end.

(** [d[k] = v]: an existing key keeps its position, a new one goes last. *)
Fixpoint dict_set {V : Type} (k : string) (v : V) (d : dict V) : dict V :=
  match d with
  | [] => [(k, v)]
  | (k', v') :: d' =>
      if String.eqb k' k then (k', v) :: d' else (k', v') :: dict_set k v d'
  end.

Definition keys {V : Type} (d : dict V) : list string := map fst d.

Fixpoint distinct_strings (l : list string) : bool :=
  match l with
  | [] => true
  | k :: l' => negb (existsb (String.eqb k) l') && distinct_strings l'
  end.

(** No key occurs twice, as in every Python dictionary. *)
Definition distinct_keys {V : Type} (d : dict V) : bool :=
  distinct_strings (keys d).

(** A run of assignments [d[k] = v], in order. *)
Definition dict_set_all {V : Type} (ws : list (string * V)) (d : dict V)
  : dict V :=
  fold_left (fun acc kv => dict_set (fst kv) (snd kv) acc) ws d.

(** ** Scalars *)

Definition is_scalar (v : yaml) : bool :=
  match v with
  | YScalar _ => true
  | _ => false
  end.

Definition is_dict (v : yaml) : bool :=
  match v with
  | YDict _ => true
  | _ => false
  end.

(** The value of an [int] against that of a [float]: Python compares the two
    exactly, without rounding the integer. *)
Definition int_eq_float (z : Z) (f : spec_float) : bool :=
  match f with
  | S754_zero _ => (z =? 0)%Z
  | S754_finite s m e =>
      let mz := if s then Z.neg m else Z.pos m in
      if (0 <=? e)%Z then (z =? mz * 2 ^ e)%Z else (z * 2 ^ (- e) =? mz)%Z
  | _ => false
  end.

Inductive number : Type :=
| NInt (z : Z)
| NFloat (f : spec_float).

(** [bool] is a subclass of [int]: [True] is 1 and [False] is 0. *)
Definition as_number (s : scalar) : option number :=
  match s with
  | SInt z => Some (NInt z)
  | SBool b => Some (NInt (if b then 1 else 0)%Z)
  | SFloat f => Some (NFloat f)
  | _ => None
  end.

Definition number_eq (x y : number) : bool :=
  match x, y with
  | NInt a, NInt b => (a =? b)%Z
  | NInt a, NFloat f => int_eq_float a f
  | NFloat f, NInt b => int_eq_float b f
  | NFloat f, NFloat g => SFeqb f g
  end.

(** [a == b] on scalars. *)
Definition py_eq (a b : scalar) : bool :=
  match a, b with
  | SStr s, SStr t => String.eqb s t
  | SNone, SNone => true
  | _, _ =>
      match as_number a, as_number b with
      | Some x, Some y => number_eq x y
      | _, _ => false
      end
  end.

(** ** Document merger *)

(** The loop of [deep_merge] over [b.items()], started on [out]; [b] is the
    dictionary inside [node]. *)
Fixpoint deep_merge_into (node : yaml) (out : dict yaml) {struct node}
  : dict yaml :=
  match node with
  | YDict b =>
      (fix loop (items : list (string * yaml)) (out : dict yaml) {struct items}
         : dict yaml :=
         match items with
         | [] => out
         | (k, v) :: rest =>
             loop rest
               match dict_get k out with
               | Some (YDict m) =>
                   if is_dict v
                   then dict_set k (YDict (deep_merge_into v m)) out
                   else dict_set k v out
               | _ => dict_set k v out
               end
         end) b out
  | _ => out
  end.

Definition deep_merge (a b : dict yaml) : dict yaml :=
  deep_merge_into (YDict b) a.

(** The body of the loop of [deep_merge], for the item [(k, v)] of [b]. *)
Definition merge_item (out : dict yaml) (k : string) (v : yaml) : dict yaml :=
  match dict_get k out with
  | Some (YDict m) =>
      match v with
      | YDict mb => dict_set k (YDict (deep_merge m mb)) out
      | _ => dict_set k v out
      end
  | _ => dict_set k v out
  end.

(** [d is None] *)
Definition is_none (v : yaml) : bool :=
  match v with
  | YScalar SNone => true
  | _ => false
  end.

(** The document as [load_yaml_merged] merges it: [d] itself when it is a
    mapping, [{"_": d}] otherwise. *)
Definition wrap_root (d : yaml) : dict yaml :=
  match d with
  | YDict m => m
  | _ => [("_", d)]
  end.

(** One turn of the loop of [load_yaml_merged]. *)
Definition merge_doc (merged : dict yaml) (d : yaml) : dict yaml :=
  if is_none d then merged else deep_merge merged (wrap_root d).

(** [load_yaml_merged] after the file has been parsed into [docs]. *)
Definition merge_docs (docs : list yaml) : dict yaml :=
  fold_left merge_doc docs [].

(** ** Path flattener *)

Definition nonempty (s : string) : bool :=
  match s with
  | EmptyString => false
  | String _ _ => true
  end.

(** [str(i)] for an index. *)
Definition str_nat (i : nat) : string :=
  NilEmpty.string_of_uint (Nat.to_uint i).

(** [f"{pfx}.{k}" if pfx else str(k)] *)
Definition field_key (pfx k : string) : string :=
  if nonempty pfx then pfx ++ "." ++ k else k.

(** [f"{pfx}[{i}]" if pfx else f"[{i}]"] *)
Definition index_key (pfx : string) (i : nat) : string :=
  if nonempty pfx then pfx ++ "[" ++ str_nat i ++ "]"
  else "[" ++ str_nat i ++ "]".

(** [_walk], with the dictionary [flat] it fills passed through. *)
Fixpoint walk (node : yaml) (pfx : string) (flat : dict scalar) {struct node}
  : dict scalar :=
  match node with
  | YScalar s => dict_set (if nonempty pfx then pfx else "") s flat
  | YDict items =>
      (fix over_items (its : list (string * yaml)) (flat : dict scalar)
         {struct its} : dict scalar :=
         match its with
         | [] => flat
         | (k, v) :: rest => over_items rest (walk v (field_key pfx k) flat)
         end) items flat
  | YList elems =>
      (fix over_elems (es : list yaml) (i : nat) (flat : dict scalar)
         {struct es} : dict scalar :=
         match es with
         | [] => flat
         | v :: rest => over_elems rest (S i) (walk v (index_key pfx i) flat)
         end) elems 0 flat
  | YOther => flat
  end.

Definition flatten (data : yaml) (prefix : string) : dict scalar :=
  filter (fun kv => nonempty (fst kv)) (walk data prefix []).

(** The assignments [flat[...] = node] that [_walk] performs, in order. *)
Fixpoint walk_writes (node : yaml) (pfx : string) {struct node}
  : list (string * scalar) :=
  match node with
  | YScalar s => [(if nonempty pfx then pfx else "", s)]
  | YDict items =>
      (fix over_items (its : list (string * yaml)) {struct its}
         : list (string * scalar) :=
         match its with
         | [] => []
         | (k, v) :: rest => walk_writes v (field_key pfx k) ++ over_items rest
         end) items
  | YList elems =>
      (fix over_elems (es : list yaml) (i : nat) {struct es}
         : list (string * scalar) :=
         match es with
         | [] => []
         | v :: rest => walk_writes v (index_key pfx i) ++ over_elems rest (S i)
         end) elems 0
  | YOther => []
  end.

(** *** Leaf positions

    A leaf position is the sequence of segments leading to it: a field of a
    mapping, named by the text [str(k)] of its key, or an index of a
    sequence.  Its canonical text joins a field to
    the current path with a dot, with no dot in front of the first segment,
    and appends an index as [[i]] with no dot. *)
Inductive segment : Type :=
| Field (k : string)
| Index (i : nat).

Definition extend (cur : string) (seg : segment) : string :=
  match seg with
  | Field k => if nonempty cur then cur ++ "." ++ k else k
  | Index i => cur ++ "[" ++ str_nat i ++ "]"
  end.

Definition render_from (cur : string) (p : list segment) : string :=
  fold_left extend p cur.

Definition render (p : list segment) : string := render_from "" p.

Definition under (seg : segment) (leaf : list segment * scalar)
  : list segment * scalar :=
  (seg :: fst leaf, snd leaf).

(** The scalar leaves of a document with their positions, in document
    order. *)
Fixpoint leaves (node : yaml) {struct node} : list (list segment * scalar) :=
  match node with
  | YScalar s => [([], s)]
  | YDict items =>
      (fix over_items (its : list (string * yaml)) {struct its}
         : list (list segment * scalar) :=
         match its with
         | [] => []
         | (k, v) :: rest => map (under (Field k)) (leaves v) ++ over_items rest
         end) items
  | YList elems =>
      (fix over_elems (es : list yaml) (i : nat) {struct es}
         : list (list segment * scalar) :=
         match es with
         | [] => []
         | v :: rest =>
             map (under (Index i)) (leaves v) ++ over_elems rest (S i)
         end) elems 0
  | YOther => []
  end.

(** *** Keys that cannot be mistaken for path syntax *)

Fixpoint all_chars (p : ascii -> bool) (s : string) : bool :=
  match s with
  | EmptyString => true
  | String c s' => p c && all_chars p s'
  end.

(** The characters that start a segment after a field name. *)
Definition is_separator (c : ascii) : bool :=
  Ascii.eqb c "." || Ascii.eqb c "[".

Definition plain_key (k : string) : bool :=
  nonempty k && all_chars (fun c => negb (is_separator c)) k.

(** In every mapping of the document the texts of the keys ([str(k)], what
    the model holds as the key) are pairwise distinct, non-empty and free of
    [.] and [[].  Distinct texts are a condition on the document: the keys
    [1] and ["1"] of one mapping have the same text. *)
Fixpoint plain_doc (node : yaml) {struct node} : bool :=
  match node with
  | YDict items =>
      distinct_keys items &&
      (fix over_items (its : list (string * yaml)) {struct its} : bool :=
         match its with
         | [] => true
         | (k, v) :: rest => plain_key k && plain_doc v && over_items rest
         end) items
  | YList elems =>
      (fix over_elems (es : list yaml) {struct es} : bool :=
         match es with
         | [] => true
         | v :: rest => plain_doc v && over_elems rest
         end) elems
  | _ => true
  end.

(** ** Pair comparator *)

(** The comparison loop of [compare_and_report]: the profile's entries, in
    the profile's order, that the base holds with an equal value. *)
Definition matching_entries (base_flat prof_flat : dict scalar)
  : list (string * scalar) :=
  filter (fun kv =>
            match dict_get (fst kv) base_flat with
            | Some base_val => py_eq base_val (snd kv)
            | None => false
            end) prof_flat.

(** [list.sort(key=lambda kv: kv[0])] is a stable sort on the path; a stable
    sort is determined by its key order, here as a stable insertion sort. *)
Fixpoint insert_by_path (x : string * scalar) (l : list (string * scalar))
  : list (string * scalar) :=
  match l with
  | [] => [x]
  | y :: l' =>
      if String.leb (fst x) (fst y) then x :: y :: l'
      else y :: insert_by_path x l'
  end.

Fixpoint sort_by_path (l : list (string * scalar)) : list (string * scalar) :=
  match l with
  | [] => []
  | x :: l' => insert_by_path x (sort_by_path l')
  end.

(** Ascending lexicographic order on the path of an entry. *)
Definition path_le (x y : string * scalar) : Prop :=
  String.leb (fst x) (fst y) = true.

(** The list [duplicates] once sorted. *)
Definition find_duplicates (base_flat prof_flat : dict scalar)
  : list (string * scalar) :=
  sort_by_path (matching_entries base_flat prof_flat).

(** The findings for a base file and a profile file given their documents. *)
Definition duplicates_of (base_docs prof_docs : list yaml)
  : list (string * scalar) :=
  find_duplicates (flatten (YDict (merge_docs base_docs)) "")
                  (flatten (YDict (merge_docs prof_docs)) "").

(** ** Characters

    A character of UTF-8 text is a byte that is not a continuation byte
    ([10xxxxxx]) together with the continuation bytes after it. *)
Definition is_continuation (c : ascii) : bool :=
  match c with
  | Ascii _ _ _ _ _ _ b6 b7 => b7 && negb b6
  end.

(** [len(s)] *)
Fixpoint py_len (s : string) : nat :=
  match s with
  | EmptyString => 0
  | String c s' => if is_continuation c then py_len s' else S (py_len s')
  end.

(** [s[:n]] *)
Fixpoint py_take (n : nat) (s : string) : string :=
  match s with
  | EmptyString => EmptyString
  | String c s' =>
      if is_continuation c then String c (py_take n s')
      else match n with
           | O => EmptyString
           | S n' => String c (py_take n' s')
           end
  end.

(** ** Output and exceptions *)

(** A computation prints lines to stdout and either returns or raises; an
    exception is the text it prints as. *)
Definition exn : Type := string.

Inductive outcome (A : Type) : Type :=
| Returned (a : A)
| Raised (e : exn).
Arguments Returned {A} a.
Arguments Raised {A} e.

Definition M (A : Type) : Type := list string -> list string * outcome A.

Definition ret {A : Type} (a : A) : M A := fun out => (out, Returned a).

Definition bind {A B : Type} (m : M A) (f : A -> M B) : M B :=
  fun out =>
    match m out with
    | (out', Returned a) => f a out'
    | (out', Raised e) => (out', Raised e)
    end.

(** [print(line)]; writing to stdout is taken to succeed. *)
Definition print (line : string) : M unit :=
  fun out => (out ++ [line], Returned tt).

(** [try: m except Exception as e: ...], the handler being the caller's
    match on the result. *)
Definition try {A : Type} (m : M A) : M (outcome A) :=
  fun out => match m out with (out', r) => (out', Returned r) end.

(** A result computed without printing, or the exception it raised. *)
Definition lift {A : Type} (r : outcome A) : M A := fun out => (out, r).

Notation "x <- m ;; f" := (bind m (fun x => f))
  (at level 61, m at next level, right associativity).
Notation "m ;;; f" := (bind m (fun _ => f))
  (at level 61, right associativity).

Section Report.

(** [path.open] followed by [list(yaml.safe_load_all(f))]: the documents
    of the file, or the exception raised while reading or parsing. *)
Variable read_docs : string -> outcome (list yaml).

(** The exception that ends the merge of the documents of a file, if any: a
    [RecursionError] when [deep_merge] nests deeper than the interpreter
    allows. *)
Variable merge_raises : list yaml -> option exn.

(** Python's [repr] on scalars: the text, or the exception raised (a
    [ValueError] for an integer with more digits than the interpreter
    converts). *)
Variable repr : scalar -> outcome string.

(** The exception that ends [_walk] on a document, if any: a
    [RecursionError] when the document nests deeper than the interpreter
    allows. *)
Variable walk_raises : yaml -> option exn.

Definition load_yaml_merged (path : string) : M (dict yaml) :=
  fun out =>
    match read_docs path with
    | Returned docs =>
        match merge_raises docs with
        | None => (out, Returned (merge_docs docs))
        | Some e => (out, Raised e)
        end
    | Raised e => (out, Raised e)
    end.

(** [shown = repr(val)], cut to 77 characters and an ellipsis when longer
    than 80. *)
Definition render_value (val : scalar) : outcome string :=
  match repr val with
  | Returned shown =>
      Returned (if (80 <? py_len shown)%nat
                then (py_take 77 shown ++ "...")%string
                else shown)
  | Raised e => Raised e
  end.

(** [flatten(data)] as called by [compare_and_report], outside any [try]. *)
Definition flatten_data (data : yaml) : M (dict scalar) :=
  match walk_raises data with
  | None => ret (flatten data "")
  | Some e => lift (Raised e)
  end.

(** The printing loop at the end of [compare_and_report]. *)
Fixpoint report (profile_path : string) (dups : list (string * scalar))
  (count : nat) : M nat :=
  match dups with
  | [] => ret count
  | (key, val) :: rest =>
      shown <- lift (render_value val) ;;
      print ("ERROR: " ++ profile_path ++ ": key '" ++ key
             ++ "' duplicates base value " ++ shown) ;;;
      report profile_path rest (S count)
  end.

Definition compare_and_report (base_path profile_path : string) : M nat :=
  b <- try (load_yaml_merged base_path) ;;
  match b with
  | Raised e =>
      print ("ERROR: Failed to load base YAML '" ++ base_path ++ "': " ++ e) ;;;
      ret 0%nat
  | Returned base_data =>
      p <- try (load_yaml_merged profile_path) ;;
      match p with
      | Raised e =>
          print ("ERROR: Failed to load profile YAML '" ++ profile_path
                 ++ "': " ++ e) ;;;
          ret 0%nat
      | Returned prof_data =>
          base_flat <- flatten_data (YDict base_data) ;;
          prof_flat <- flatten_data (YDict prof_data) ;;
          report profile_path (find_duplicates base_flat prof_flat) 0
      end
  end.

(** The loop of [process_folder] over the profile files it found:
    [for prof in profiles: total += compare_and_report(base_path, prof)]. *)
Fixpoint process_profiles (base_path : string) (profiles : list string)
  (total : nat) : M nat :=
  match profiles with
  | [] => ret total
  | prof :: rest =>
      n <- compare_and_report base_path prof ;;
      process_profiles base_path rest (total + n)
  end.

End Report.

(** ** Folders and the command line

    The directory tree is outside the program.  A folder is the text of its
    path; the files in it are named, and [join folder name] is the text of
    [folder / name].  The paths [find_profile_files] yields are children of
    the one folder, so a path is its name: two are equal when the names
    are, and ordered as the names are (POSIX paths), and [p.name] gives the
    name back. *)

(** The newline in front of some messages. *)
Definition nl : string := String (ascii_of_nat 10) EmptyString.

(** [sorted(set(names))]: the distinct names in ascending order. *)
Fixpoint insert_name (x : string) (l : list string) : list string :=
  match l with
  | [] => [x]
  | y :: l' =>
      if String.eqb x y then l
      else if String.leb x y then x :: l
      else y :: insert_name x l'
  end.

Definition sorted_set (l : list string) : list string :=
  fold_right insert_name [] l.

Definition base_names : list string := ["application.yaml"; "application.yml"].

(** [name in ("application.yaml", "application.yml")] *)
Definition is_base_name (name : string) : bool :=
  existsb (String.eqb name) base_names.

Section Folders.

Variable read_docs : string -> outcome (list yaml).
Variable merge_raises : list yaml -> option exn.
Variable repr : scalar -> outcome string.
Variable walk_raises : yaml -> option exn.

(** The text of [folder / name]. *)
Variable join : string -> string -> string.

(** [path.exists()] *)
Variable path_exists : string -> bool.

(** [path.is_dir()] *)
Variable is_dir : string -> bool.

(** [folder.glob(pattern)]: the names of the entries of [folder] that match. *)
Variable glob : string -> string -> list string.

(** [os.walk(root)]: each directory under [root] with the names of its
    files. *)
Variable os_walk : string -> list (string * list string).

Definition find_profile_files (folder : string) : list string :=
  flat_map (fun ext =>
              glob folder ("application-*-*" ++ ext)
              ++ glob folder ("application-*" ++ ext))
           [".yaml"; ".yml"].

(** The first candidate that exists, [application.yaml] before
    [application.yml]. *)
Definition find_base (folder : string) : option string :=
  find path_exists (map (join folder) base_names).

(** The names of the profile files [process_folder] compares, in the order
    it compares them. *)
Definition folder_profiles (folder : string) : list string :=
  filter (fun name => negb (is_base_name name))
         (sorted_set (find_profile_files folder)).

Definition process_folder (folder : string) : M nat :=
  match find_base folder with
  | None => ret 0%nat
  | Some base_path =>
      print (nl ++ "Folder: " ++ folder) ;;;
      print ("Base:   " ++ base_path) ;;;
      match folder_profiles folder with
      | [] => print "No profile-specific files found." ;;; ret 0%nat
      | profiles =>
          total <- process_profiles read_docs merge_raises repr walk_raises
              base_path
                     (map (join folder) profiles) 0 ;;
          (if (total =? 0)%nat then print "No duplicate key values found."
           else ret tt) ;;;
          ret total
      end
  end.

(** [name in filenames] for either base name. *)
Definition has_base (filenames : list string) : bool :=
  existsb (String.eqb "application.yaml") filenames
  || existsb (String.eqb "application.yml") filenames.

(** The loop of [walk_and_check] over what [os.walk] yields. *)
Fixpoint walk_folders (entries : list (string * list string)) (total : nat)
  : M nat :=
  match entries with
  | [] => ret total
  | (dirpath, filenames) :: rest =>
      if has_base filenames
      then n <- process_folder dirpath ;; walk_folders rest (total + n)
      else walk_folders rest total
  end.

Definition walk_and_check (root : string) : M nat :=
  walk_folders (os_walk root) 0.

(** [main] on the resolved root; the value returned is the status given to
    [SystemExit], with which [main] ends unless another exception gets
    through it. *)
Definition main (root : string) : M nat :=
  if negb (path_exists root) || negb (is_dir root)
  then print ("ERROR: '" ++ root ++ "' is not a directory.") ;;; ret 2%nat
  else
    total <- walk_and_check root ;;
    if (0 <? total)%nat
    then print (nl ++ "Completed with " ++ str_nat total
                ++ " duplicated key value(s) found.") ;;; ret 1%nat
    else print (nl ++ "Completed with no duplicated key values found.") ;;;
         ret 0%nat.

End Folders.

(** ** Induction over documents *)

Definition yaml_induction (P : yaml -> Prop)
  (Hscalar : forall s, P (YScalar s))
  (Hdict : forall items, Forall (fun kv => P (snd kv)) items -> P (YDict items))
  (Hlist : forall elems, Forall P elems -> P (YList elems))
  (Hother : P YOther)
  : forall node, P node :=
  fix go (node : yaml) : P node :=
    match node with
    | YScalar s => Hscalar s
    | YDict items =>
        Hdict items
          ((fix all (its : list (string * yaml))
              : Forall (fun kv => P (snd kv)) its :=
              match its with
              | [] => Forall_nil _
              | kv :: rest =>
                  Forall_cons kv
                    (match kv as kv0 return P (snd kv0) with
                     | (_, v) => go v
                     end)
                    (all rest)
              end) items)
    | YList elems =>
        Hlist elems
          ((fix all (es : list yaml) : Forall P es :=
              match es with
              | [] => Forall_nil _
              | v :: rest => Forall_cons v (go v) (all rest)
              end) elems)
    | YOther => Hother
    end.

(** ** Auxiliary definitions for the proofs *)

(** What [deep_merge] stores under a key of [b]. *)
Definition merged_value (old : option yaml) (v : yaml) : yaml :=
  match old, v with
  | Some (YDict m), YDict mb => YDict (deep_merge m mb)
  | _, _ => v
  end.

Definition at_path (pfx : string) (leaf : list segment * scalar)
  : string * scalar :=
  (render_from pfx (fst leaf), snd leaf).

(** The text a segment adds after a non-empty path. *)
Definition seg_text (seg : segment) : string :=
  match seg with
  | Field k => "." ++ k
  | Index i => "[" ++ str_nat i ++ "]"
  end.

Fixpoint suffix (p : list segment) : string :=
  match p with
  | [] => ""
  | seg :: p' => seg_text seg ++ suffix p'
  end.

Definition plain_segment (seg : segment) : bool :=
  match seg with
  | Field k => plain_key k
  | Index _ => true
  end.

(** Empty, or starting with a character on which [stop] holds. *)
Definition stops_at (stop : ascii -> bool) (r : string) : bool :=
  match r with
  | EmptyString => true
  | String c _ => stop c
  end.

Definition leaves_items (items : list (string * yaml))
  : list (list segment * scalar) :=
  flat_map (fun kv => map (under (Field (fst kv))) (leaves (snd kv))) items.

Fixpoint leaves_elems (es : list yaml) (i : nat)
  : list (list segment * scalar) :=
  match es with
  | [] => []
  | v :: rest => map (under (Index i)) (leaves v) ++ leaves_elems rest (S i)
  end.

Definition is_close (c : ascii) : bool := Ascii.eqb c "]".

(** The text of a first segment: no dot in front of a field. *)
Definition head_text (seg : segment) : string :=
  match seg with
  | Field k => k
  | Index i => "[" ++ str_nat i ++ "]"
  end.

Definition fails {A : Type} (r : outcome A) : bool :=
  match r with
  | Raised _ => true
  | Returned _ => false
  end.

(** Every mapping of the document, at every depth, has pairwise distinct
    keys: the document is one that Python can hold. *)
Fixpoint distinct_deep (node : yaml) {struct node} : bool :=
  match node with
  | YDict items =>
      distinct_keys items &&
      (fix over_items (its : list (string * yaml)) {struct its} : bool :=
         match its with
         | [] => true
         | (_, v) :: rest => distinct_deep v && over_items rest
         end) items
  | YList elems =>
      (fix over_elems (es : list yaml) {struct es} : bool :=
         match es with
         | [] => true
         | v :: rest => distinct_deep v && over_elems rest
         end) elems
  | _ => true
  end.

(** The value reached from [v] by following the keys [ks] through nested
    mappings: [v[k1][k2]...]. *)
Fixpoint get_in (ks : list string) (v : yaml) {struct ks} : option yaml :=
  match ks with
  | [] => Some v
  | k :: ks' =>
      match v with
      | YDict m =>
          match dict_get k m with
          | Some v' => get_in ks' v'
          | None => None
          end
      | _ => None
      end
  end.

(** The key path [ks] leaves [b] at a key [b] lacks, after passing only
    through mappings of [b]: nothing of [b] sits on the path or at its
    end. *)
Fixpoint untouched (ks : list string) (b : yaml) {struct ks} : bool :=
  match ks with
  | [] => false
  | k :: ks' =>
      match b with
      | YDict m =>
          match dict_get k m with
          | None => true
          | Some v' => is_dict v' && untouched ks' v'
          end
      | _ => false
      end
  end.

(** The value of the last pair of [ws] with the key [k]. *)
Fixpoint lookup_last {V : Type} (k : string) (ws : list (string * V))
  : option V :=
  match ws with
  | [] => None
  | (k', v) :: ws' =>
      match lookup_last k ws' with
      | Some v' => Some v'
      | None => if String.eqb k' k then Some v else None
      end
  end.

(** Strictly ascending order on names. *)
Definition name_lt (x y : string) : Prop := String.ltb x y = true.

(** Strictly ascending order on the path of an entry. *)
Definition path_lt (x y : string * scalar) : Prop :=
  String.ltb (fst x) (fst y) = true.

Definition is_nan (s : scalar) : bool :=
  match s with
  | SFloat S754_nan => true
  | _ => false
  end.

(** The line [compare_and_report] prints for a finding, when [repr] gives
    a text for its value. *)
Definition finding_line (repr : scalar -> outcome string)
  (profile_path : string) (kv : string * scalar) : outcome string :=
  match render_value repr (snd kv) with
  | Returned shown =>
      Returned ("ERROR: " ++ profile_path ++ ": key '" ++ fst kv
                ++ "' duplicates base value " ++ shown)%string
  | Raised e => Raised e
  end.

(** The documents of a file that loads: it is read and parsed, and its
    documents are merged, without an exception. *)
Definition loaded (read_docs : string -> outcome (list yaml))
  (merge_raises : list yaml -> option exn) (path : string)
  : option (list yaml) :=
  match read_docs path with
  | Returned docs =>
      match merge_raises docs with
      | None => Some docs
      | Some _ => None
      end
  | Raised _ => None
  end.

(** The number of findings for a base file and a profile file: none when
    either cannot be loaded. *)
Definition pair_count (read_docs : string -> outcome (list yaml))
  (merge_raises : list yaml -> option exn)
  (base_path profile_path : string) : nat :=
  match loaded read_docs merge_raises base_path,
        loaded read_docs merge_raises profile_path with
  | Some base_docs, Some prof_docs =>
      List.length (duplicates_of base_docs prof_docs)
  | _, _ => 0%nat
  end.

(** The number of findings in a folder. *)
Definition folder_count (read_docs : string -> outcome (list yaml))
  (merge_raises : list yaml -> option exn)
  (join : string -> string -> string) (path_exists : string -> bool)
  (glob : string -> string -> list string) (folder : string) : nat :=
  match find_base join path_exists folder with
  | None => 0%nat
  | Some base_path =>
      list_sum (map (fun name =>
                       pair_count read_docs merge_raises base_path
                         (join folder name))
                    (folder_profiles glob folder))
  end.

(** The number of findings under a root: those of the folders that
    [os.walk] lists with a base file among their files. *)
Definition tree_count (read_docs : string -> outcome (list yaml))
  (merge_raises : list yaml -> option exn)
  (join : string -> string -> string) (path_exists : string -> bool)
  (glob : string -> string -> list string)
  (os_walk : string -> list (string * list string)) (root : string) : nat :=
  list_sum (map (fun entry =>
                   if has_base (snd entry)
                   then folder_count read_docs merge_raises join path_exists
                          glob (fst entry)
                   else 0%nat)
                (os_walk root)).

(** ** Example documents and files *)

Definition config_a : dict yaml :=
  [("a", YDict [("x", YScalar (SInt 1))]); ("b", YScalar (SInt 7));
   ("c", YScalar (SStr "keep"))].

Definition config_b : dict yaml :=
  [("a", YDict [("y", YScalar (SInt 2))]);
   ("b", YDict [("z", YScalar SNone)]); ("d", YList [])].

Definition routes_doc : yaml :=
  YDict [("routes", YList [YDict [("path", YScalar (SStr "/a"))];
                           YDict [("path", YScalar (SStr "/b"))]])].

(** The float [8080.0]: mantissa [8080 * 2^40], exponent [-40]. *)
Definition float_8080 : spec_float := S754_finite false 8884053952430080 (-40).

Definition at_key (k : string) (s : scalar) : list yaml :=
  [YDict [(k, YScalar s)]].

Definition x_and_y : dict scalar := [("x", SInt 1); ("y", SInt 2)].

Definition only_y : dict scalar := [("y", SInt 2)].

(** The mapping [{1: "x", "1": "y"}], its keys as their texts. *)
Definition same_text_doc : yaml :=
  YDict [("1", YScalar (SStr "x")); ("1", YScalar (SStr "y"))].

(** A key that contains a dot collides with a nested key. *)
Definition colliding_doc : yaml :=
  YDict [("a.b", YScalar (SInt 1)); ("a", YDict [("b", YScalar (SInt 2))])].

Definition server_doc : yaml :=
  YDict [("server", YDict [("port", YScalar (SInt 8080));
                           ("hosts", YList [YScalar (SStr "a");
                                            YScalar (SStr "b")])]);
         ("debug", YScalar (SBool false))].

Definition broken_profile (path : string) : outcome (list yaml) :=
  if String.eqb path "application.yaml" then Returned [server_doc]
  else if String.eqb path "application-dev.yaml" then Raised "mapping values are not allowed here"
  else Returned [server_doc].

Definition plain_text (s : scalar) : string :=
  match s with
  | SStr t => "'" ++ t ++ "'"
  | SInt z => if (z <? 0)%Z then "-" ++ str_nat (Z.abs_nat z)
              else str_nat (Z.abs_nat z)
  | SBool true => "True"
  | SBool false => "False"
  | SNone => "None"
  | SFloat _ => "float"
  end.

Definition plain_repr (s : scalar) : outcome string :=
  Returned (plain_text s).

(** A [repr] that refuses an integer of more than [max_digits] digits, as
    the interpreter does beyond its limit. *)
Definition limited_repr (max_digits : nat) (s : scalar) : outcome string :=
  match s with
  | SInt z =>
      if (max_digits <? String.length (str_nat (Z.abs_nat z)))%nat
      then Raised "Exceeds the limit for integer string conversion"
      else plain_repr s
  | _ => plain_repr s
  end.

(** No merge is too deep. *)
Definition no_merge_limit (docs : list yaml) : option exn := None.

(** No document is too deep. *)
Definition no_limit (data : yaml) : option exn := None.

(** Only mappings nested at most once come back. *)
Definition shallow_only (data : yaml) : option exn :=
  match data with
  | YDict items =>
      if forallb (fun kv =>
                    match snd kv with
                    | YDict inner => forallb (fun kv' => negb (is_dict (snd kv'))) inner
                    | _ => true
                    end) items
      then None
      else Some "maximum recursion depth exceeded"
  | _ => None
  end.

(** A text of 40 two-byte characters; in quotes, 42 characters and 82
    bytes. *)
Definition e_acute : string :=
  String (ascii_of_nat 195) (String (ascii_of_nat 169) EmptyString).

Definition accented : string := String.concat "" (List.repeat e_acute 40).

(** Mappings nested twice. *)
Definition nested_doc : yaml :=
  YDict [("a", YDict [("b", YDict [("c", YScalar (SInt 1))])])].

Definition nested_files (path : string) : outcome (list yaml) :=
  Returned [nested_doc].

(** A small tree: the folder [svc] with a base file, a profile that does
    not parse, a two-segment profile that repeats the base, and a [.yml]
    profile that changes every value; and an empty folder beside it. *)
Definition prod_doc : yaml :=
  YDict [("server", YDict [("port", YScalar (SInt 9090));
                           ("hosts", YList [YScalar (SStr "c")])]);
         ("debug", YScalar (SBool true))].

Definition demo_join (folder name : string) : string :=
  folder ++ "/" ++ name.

Definition demo_files : list string :=
  ["application.yaml"; "application-dev.yaml"; "application-dev-us.yaml";
   "application-prod.yml"; "README.md"].

Definition demo_glob (folder pattern : string) : list string :=
  if negb (String.eqb folder "svc") then []
  else if String.eqb pattern "application-*-*.yaml"
       then ["application-dev-us.yaml"]
  else if String.eqb pattern "application-*.yaml"
       then ["application-dev.yaml"; "application-dev-us.yaml"]
  else if String.eqb pattern "application-*.yml"
       then ["application-prod.yml"]
  else [].

Definition demo_exists (path : string) : bool :=
  String.eqb path "svc"
  || existsb (fun name => String.eqb path (demo_join "svc" name)) demo_files.

Definition demo_is_dir (path : string) : bool :=
  String.eqb path "svc" || String.eqb path "svc/empty".

Definition demo_walk (root : string) : list (string * list string) :=
  if String.eqb root "svc" then [("svc", demo_files); ("svc/empty", [])]
  else [].

Definition demo_read (path : string) : outcome (list yaml) :=
  if String.eqb path "svc/application.yaml" then Returned [server_doc]
  else if String.eqb path "svc/application-dev-us.yaml"
       then Returned [server_doc]
  else if String.eqb path "svc/application-prod.yml" then Returned [prod_doc]
  else Raised "mapping values are not allowed here".

(** * Properties *)

(** ** Dictionaries *)

Lemma dict_get_set_same {V : Type} (k : string) (v : V) (d : dict V) :
  dict_get k (dict_set k v d) = Some v.
Proof.
  induction d as [|[k' v'] d IH]; simpl.
  - now rewrite String.eqb_refl.
  - destruct (String.eqb k' k) eqn:E; simpl; rewrite E; auto.
Qed.

Lemma dict_get_set_other {V : Type} (k k' : string) (v : V) (d : dict V) :
  k <> k' -> dict_get k' (dict_set k v d) = dict_get k' d.
Proof.
  intros Hne. induction d as [|[k0 v0] d IH]; simpl.
  - apply String.eqb_neq in Hne. now rewrite Hne.
  - destruct (String.eqb k0 k) eqn:E; simpl.
    + apply String.eqb_eq in E. subst k0.
      apply String.eqb_neq in Hne. now rewrite Hne.
    + now rewrite IH.
Qed.

Lemma keys_dict_set_in {V : Type} (k : string) (v : V) (d : dict V) :
  In k (keys d) -> keys (dict_set k v d) = keys d.
Proof.
  unfold keys. induction d as [|[k' v'] d IH]; simpl; intros Hin.
  - contradiction.
  - destruct (String.eqb k' k) eqn:E; simpl; [reflexivity|].
    f_equal. apply IH. destruct Hin as [->|]; [|assumption].
    now rewrite String.eqb_refl in E.
Qed.

Lemma dict_set_fresh {V : Type} (k : string) (v : V) (d : dict V) :
  ~ In k (keys d) -> dict_set k v d = d ++ [(k, v)].
Proof.
  unfold keys. induction d as [|[k' v'] d IH]; simpl; intros Hnin.
  - reflexivity.
  - destruct (String.eqb k' k) eqn:E.
    + apply String.eqb_eq in E. tauto.
    + f_equal. apply IH. tauto.
Qed.

Lemma existsb_eqb_In (k : string) (l : list string) :
  existsb (String.eqb k) l = true <-> In k l.
Proof.
  rewrite existsb_exists. split.
  - intros [x [Hx E]]. apply String.eqb_eq in E. now subst.
  - intros H. exists k. split; [assumption | apply String.eqb_refl].
Qed.

Lemma distinct_strings_NoDup (l : list string) :
  distinct_strings l = true <-> NoDup l.
Proof.
  induction l as [|k l IH]; simpl.
  - split; [constructor | reflexivity].
  - rewrite andb_true_iff, negb_true_iff, IH. split.
    + intros [Hk Hl]. constructor; [|assumption].
      intros Hin. apply existsb_eqb_In in Hin. congruence.
    + intros H. inversion H; subst. split; [|assumption].
      destruct (existsb (String.eqb k) l) eqn:E; [|reflexivity].
      apply existsb_eqb_In in E. contradiction.
Qed.

Lemma NoDup_keys_dict_set {V : Type} (k : string) (v : V) (d : dict V) :
  NoDup (keys d) -> NoDup (keys (dict_set k v d)).
Proof.
  intros Hd. destruct (in_dec string_dec k (keys d)) as [Hin|Hnin].
  - now rewrite keys_dict_set_in.
  - rewrite dict_set_fresh by assumption. unfold keys in *.
    rewrite map_app. simpl.
    apply NoDup_rev in Hd. rewrite <- (rev_involutive (map fst d ++ [k])).
    apply NoDup_rev. rewrite rev_app_distr. simpl. constructor; [|assumption].
    now rewrite <- in_rev.
Qed.

Lemma NoDup_keys_dict_set_all {V : Type} (ws : list (string * V)) (d : dict V) :
  NoDup (keys d) -> NoDup (keys (dict_set_all ws d)).
Proof.
  revert d. induction ws as [|[k v] ws IH]; simpl; intros d Hd.
  - assumption.
  - apply IH. now apply NoDup_keys_dict_set.
Qed.

Lemma NoDup_keys_filter {V : Type} (f : string * V -> bool) (d : dict V) :
  NoDup (keys d) -> NoDup (keys (filter f d)).
Proof.
  unfold keys. induction d as [|kv d IH]; simpl; intros Hd.
  - constructor.
  - inversion Hd; subst. destruct (f kv); simpl; [|auto].
    constructor; [|auto]. intros Hin. apply in_map_iff in Hin.
    destruct Hin as [x [Hx Hin]]. apply filter_In in Hin.
    apply H1. rewrite <- Hx. apply in_map. tauto.
Qed.

(** With pairwise distinct keys, a run of assignments into the empty
    dictionary stores every one of them, in order. *)
Lemma dict_set_all_distinct {V : Type} (ws : list (string * V)) (d : dict V) :
  NoDup (keys (d ++ ws)) -> dict_set_all ws d = d ++ ws.
Proof.
  revert d. induction ws as [|[k v] ws IH]; simpl; intros d Hd.
  - now rewrite app_nil_r.
  - assert (Hnin : ~ In k (keys d)).
    { unfold keys in *. rewrite map_app in Hd. simpl in Hd.
      apply NoDup_remove_2 in Hd. intros Hin. apply Hd.
      apply in_or_app. now left. }
    rewrite dict_set_fresh by assumption.
    rewrite IH; rewrite <- app_assoc; simpl; [reflexivity | assumption].
Qed.

(** ** The order on paths *)

Lemma leb_String (x y : ascii) (a b : string) :
  String.leb (String x a) (String y b) =
  match N.compare (N_of_ascii x) (N_of_ascii y) with
  | Lt => true
  | Eq => String.leb a b
  | Gt => false
  end.
Proof.
  unfold String.leb. simpl. unfold Ascii.compare.
  now destruct (N.compare (N_of_ascii x) (N_of_ascii y)).
Qed.

Lemma leb_trans (a b c : string) :
  String.leb a b = true -> String.leb b c = true -> String.leb a c = true.
Proof.
  revert b c. induction a as [|x a IH]; intros [|y b] [|z c]; try easy.
  rewrite !leb_String.
  destruct (N.compare_spec (N_of_ascii x) (N_of_ascii y)) as [Exy|Lxy|Gxy];
    destruct (N.compare_spec (N_of_ascii y) (N_of_ascii z)) as [Eyz|Lyz|Gyz];
    destruct (N.compare_spec (N_of_ascii x) (N_of_ascii z)) as [Exz|Lxz|Gxz];
    try easy; try lia.
  apply IH.
Qed.

(** ** Sorting *)

Lemma insert_by_path_perm (x : string * scalar) (l : list (string * scalar)) :
  Permutation (x :: l) (insert_by_path x l).
Proof.
  induction l as [|y l IH]; simpl.
  - apply Permutation_refl.
  - destruct (String.leb (fst x) (fst y)).
    + apply Permutation_refl.
    + eapply perm_trans; [apply perm_swap|]. now apply perm_skip.
Qed.

Lemma sort_by_path_perm (l : list (string * scalar)) :
  Permutation l (sort_by_path l).
Proof.
  induction l as [|x l IH]; simpl.
  - constructor.
  - eapply perm_trans; [apply perm_skip, IH | apply insert_by_path_perm].
Qed.

Lemma insert_by_path_sorted (x : string * scalar) (l : list (string * scalar)) :
  StronglySorted path_le l -> StronglySorted path_le (insert_by_path x l).
Proof.
  induction l as [|y l IH]; simpl; intros Hl.
  - repeat constructor.
  - inversion Hl as [|? ? Hl' Hy]; subst.
    destruct (String.leb (fst x) (fst y)) eqn:E.
    + constructor; [assumption|]. constructor; [exact E|].
      eapply Forall_impl; [|exact Hy]. intros z Hz. unfold path_le in *.
      eapply leb_trans; eassumption.
    + constructor; [auto|].
      eapply Permutation_Forall; [apply insert_by_path_perm|].
      constructor; [|assumption]. unfold path_le.
      destruct (String.leb_total (fst x) (fst y)); congruence.
Qed.

Lemma sort_by_path_sorted (l : list (string * scalar)) :
  StronglySorted path_le (sort_by_path l).
Proof.
  induction l as [|x l IH]; simpl.
  - constructor.
  - now apply insert_by_path_sorted.
Qed.

(** A list already in order is left as it is, entries with equal paths
    included: the sort moves nothing it does not have to. *)
Lemma insert_by_path_head (x : string * scalar) (l : list (string * scalar)) :
  Forall (path_le x) l -> insert_by_path x l = x :: l.
Proof.
  destruct l as [|y l]; simpl; [reflexivity|].
  intros H. inversion H as [|? ? Hy _]; subst. unfold path_le in Hy.
  now rewrite Hy.
Qed.

Lemma sort_by_path_sorted_id (l : list (string * scalar)) :
  StronglySorted path_le l -> sort_by_path l = l.
Proof.
  induction 1 as [|x l Hl IH Hx]; simpl; [reflexivity|].
  rewrite IH. now apply insert_by_path_head.
Qed.

(** ** Pair comparator *)

Lemma matching_entries_In (base_flat prof_flat : dict scalar)
  (path : string) (value : scalar) :
  In (path, value) (matching_entries base_flat prof_flat) <->
  In (path, value) prof_flat /\
  exists base_val,
    dict_get path base_flat = Some base_val /\ py_eq base_val value = true.
Proof.
  unfold matching_entries. rewrite filter_In. simpl.
  split; intros [Hin H]; split; try assumption.
  - destruct (dict_get path base_flat) as [bv|]; [|discriminate]. now exists bv.
  - destruct H as [bv [-> H]]. exact H.
Qed.

Lemma find_duplicates_perm (base_flat prof_flat : dict scalar) :
  Permutation (matching_entries base_flat prof_flat)
              (find_duplicates base_flat prof_flat).
Proof. apply sort_by_path_perm. Qed.

(** C1. The comparator reports exactly the paths of the profile that the
    base also holds with an equal scalar value, each with the profile's
    value; a path the profile does not hold is never reported, whatever the
    base holds there. *)
Theorem find_duplicates_exact (base_flat prof_flat : dict scalar) :
  (forall path value,
      In (path, value) (find_duplicates base_flat prof_flat) <->
      In (path, value) prof_flat /\
      exists base_val,
        dict_get path base_flat = Some base_val /\
        py_eq base_val value = true) /\
  (forall path,
      ~ In path (keys prof_flat) ->
      ~ In path (keys (find_duplicates base_flat prof_flat))).
Proof.
  assert (Hiff : forall kv,
             In kv (find_duplicates base_flat prof_flat) <->
             In kv (matching_entries base_flat prof_flat)).
  { intros kv. split; apply Permutation_in;
      [apply Permutation_sym|]; apply find_duplicates_perm. }
  split.
  - intros path value. rewrite Hiff. apply matching_entries_In.
  - intros path Hnin Hin. apply Hnin. unfold keys in *.
    apply in_map_iff in Hin. destruct Hin as [[k v] [Hk Hin]].
    simpl in Hk. subst k. apply Hiff, matching_entries_In in Hin.
    apply in_map_iff. exists (path, v). tauto.
Qed.

Lemma find_duplicates_exact_witness :
  ~ In "x" (keys only_y)
  /\ ~ In "x" (keys (find_duplicates x_and_y only_y))
  /\ In ("y", SInt 2) (find_duplicates x_and_y only_y).
Proof.
  assert (Hx : ~ In "x" (keys only_y)).
  { simpl. intros [H|[]]. discriminate H. }
  destruct (find_duplicates_exact x_and_y only_y) as [Hiff Honly].
  split; [exact Hx|]. split; [exact (Honly "x" Hx)|].
  apply Hiff. split; [now left|]. exists (SInt 2). split; reflexivity.
Defined.

(** The comparisons of the specification's examples. *)
Example find_duplicates_equal_value_only :
  find_duplicates
    [("server.port", SInt 8080); ("server.host", SStr "a")]
    [("server.port", SInt 8080); ("server.host", SStr "b")]
  = [("server.port", SInt 8080)].
Proof. reflexivity. Qed.

Example find_duplicates_ignores_base_only :
  find_duplicates x_and_y only_y = [("y", SInt 2)].
Proof. reflexivity. Qed.

Example duplicates_of_end_to_end :
  duplicates_of
    [YDict [("db", YDict [("url", YScalar (SStr "prod"))]);
            ("debug", YScalar (SBool false))]]
    [YDict [("db", YDict [("url", YScalar (SStr "prod"))]);
            ("debug", YScalar (SBool true))]]
  = [("db.url", SStr "prod")].
Proof. reflexivity. Qed.

(** C6. The findings come out in ascending lexicographic order of their
    paths: every finding's path is at most the path of every later one. *)
Theorem find_duplicates_sorted (base_flat prof_flat : dict scalar) :
  StronglySorted path_le (find_duplicates base_flat prof_flat).
Proof. apply sort_by_path_sorted. Qed.

(** ** Document merger *)

Lemma deep_merge_nil (a : dict yaml) : deep_merge a [] = a.
Proof. reflexivity. Qed.

Lemma deep_merge_cons (a : dict yaml) (k : string) (v : yaml)
  (rest : dict yaml) :
  deep_merge a ((k, v) :: rest) = deep_merge (merge_item a k v) rest.
Proof.
  unfold deep_merge, merge_item. simpl.
  destruct (dict_get k a) as [[| m | |]|]; try reflexivity.
  destruct v; reflexivity.
Qed.

Lemma dict_get_merge_item_same (a : dict yaml) (k : string) (v : yaml) :
  dict_get k (merge_item a k v) = Some (merged_value (dict_get k a) v).
Proof.
  unfold merge_item, merged_value.
  destruct (dict_get k a) as [[| m | |]|]; try apply dict_get_set_same.
  destruct v; apply dict_get_set_same.
Qed.

Lemma dict_get_merge_item_other (a : dict yaml) (k k' : string) (v : yaml) :
  k <> k' -> dict_get k' (merge_item a k v) = dict_get k' a.
Proof.
  intros Hne. unfold merge_item.
  destruct (dict_get k a) as [[| m | |]|]; try now apply dict_get_set_other.
  destruct v; now apply dict_get_set_other.
Qed.

Lemma dict_get_None {V : Type} (k : string) (d : dict V) :
  ~ In k (keys d) -> dict_get k d = None.
Proof.
  unfold keys. induction d as [|[k' v] d IH]; simpl; intros Hnin.
  - reflexivity.
  - destruct (String.eqb k' k) eqn:E.
    + apply String.eqb_eq in E. tauto.
    + apply IH. tauto.
Qed.

Lemma dict_get_deep_merge (b a : dict yaml) (k : string) :
  NoDup (keys b) ->
  dict_get k (deep_merge a b) =
  match dict_get k b with
  | Some vb => Some (merged_value (dict_get k a) vb)
  | None => dict_get k a
  end.
Proof.
  revert a. induction b as [|[k0 v0] b IH]; intros a Hb.
  - reflexivity.
  - rewrite deep_merge_cons. simpl in Hb. inversion Hb as [|? ? Hk0 Hb']; subst.
    rewrite IH by assumption. simpl.
    destruct (String.eqb k0 k) eqn:E.
    + apply String.eqb_eq in E. subst k0.
      rewrite (dict_get_None k b) by assumption.
      apply dict_get_merge_item_same.
    + apply String.eqb_neq in E.
      now rewrite dict_get_merge_item_other.
Qed.

(** C2. In [deep_merge(a, b)], a key of [b] whose values in [a] and in [b]
    are both mappings holds the recursive merge of the two; every other key
    of [b] holds [b]'s value unchanged, whether a mapping replaces a
    non-mapping, a non-mapping replaces a mapping, or the key is new; a key
    of [a] that [b] lacks keeps [a]'s value. *)
Theorem deep_merge_spec (a b : dict yaml) :
  distinct_keys b = true ->
  (forall k ma mb,
      dict_get k a = Some (YDict ma) ->
      dict_get k b = Some (YDict mb) ->
      dict_get k (deep_merge a b) = Some (YDict (deep_merge ma mb))) /\
  (forall k vb,
      dict_get k b = Some vb ->
      is_dict vb = false \/ (forall ma, dict_get k a <> Some (YDict ma)) ->
      dict_get k (deep_merge a b) = Some vb) /\
  (forall k,
      dict_get k b = None ->
      dict_get k (deep_merge a b) = dict_get k a).
Proof.
  intros Hb. apply distinct_strings_NoDup in Hb.
  repeat split.
  - intros k ma mb Ha Hkb. rewrite dict_get_deep_merge by assumption.
    now rewrite Hkb, Ha.
  - intros k vb Hkb Hcase. rewrite dict_get_deep_merge by assumption.
    rewrite Hkb. f_equal. unfold merged_value.
    destruct (dict_get k a) as [[| ma | |]|]; try reflexivity.
    destruct vb; try reflexivity.
    destruct Hcase as [Hd|Hn]; [discriminate | now elim (Hn ma)].
  - intros k Hkb. rewrite dict_get_deep_merge by assumption. now rewrite Hkb.
Qed.

Lemma deep_merge_spec_witness :
  distinct_keys config_b = true /\
  dict_get "a" (deep_merge config_a config_b) =
    Some (YDict [("x", YScalar (SInt 1)); ("y", YScalar (SInt 2))]) /\
  dict_get "b" (deep_merge config_a config_b) =
    Some (YDict [("z", YScalar SNone)]) /\
  dict_get "c" (deep_merge config_a config_b) = Some (YScalar (SStr "keep")).
Proof.
  split; [reflexivity|].
  destruct (deep_merge_spec config_a config_b eq_refl) as [Hboth [Hrepl Hkeep]].
  split; [|split].
  - exact (Hboth "a" _ _ eq_refl eq_refl).
  - apply Hrepl; [reflexivity | right; discriminate].
  - exact (Hkeep "c" eq_refl).
Defined.

(** The merges of the specification's examples. *)
Example deep_merge_override :
  deep_merge [("a", YScalar (SInt 1))] [("a", YScalar (SInt 2))]
  = [("a", YScalar (SInt 2))].
Proof. reflexivity. Qed.

Example deep_merge_recursive :
  deep_merge [("a", YDict [("x", YScalar (SInt 1))])]
             [("a", YDict [("y", YScalar (SInt 2))])]
  = [("a", YDict [("x", YScalar (SInt 1)); ("y", YScalar (SInt 2))])].
Proof. reflexivity. Qed.

Example deep_merge_kind_mismatch :
  deep_merge [("a", YDict [("x", YScalar (SInt 1))])] [("a", YScalar (SInt 5))]
  = [("a", YScalar (SInt 5))]
  /\ deep_merge [("a", YScalar (SInt 5))] [("a", YDict [("x", YScalar (SInt 1))])]
  = [("a", YDict [("x", YScalar (SInt 1))])].
Proof. split; reflexivity. Qed.

(** ** Path flattener *)

Lemma dict_set_all_app {V : Type} (ws1 ws2 : list (string * V)) (d : dict V) :
  dict_set_all (ws1 ++ ws2) d = dict_set_all ws2 (dict_set_all ws1 d).
Proof. apply fold_left_app. Qed.

(** [_walk] performs the assignments of [walk_writes], in order. *)
Lemma walk_performs_writes (node : yaml) :
  forall pfx flat, walk node pfx flat = dict_set_all (walk_writes node pfx) flat.
Proof.
  induction node as [s | items IH | elems IH |] using yaml_induction;
    intros pfx flat; try reflexivity.
  - simpl. revert flat. induction IH as [|[k v] rest Hv _ IHrest]; intros flat.
    + reflexivity.
    + rewrite dict_set_all_app. simpl in Hv. rewrite <- Hv. apply IHrest.
  - simpl. generalize 0%nat. revert flat.
    induction IH as [|v rest Hv _ IHrest]; intros flat i.
    + reflexivity.
    + rewrite dict_set_all_app. rewrite <- Hv. apply IHrest.
Qed.

Lemma extend_index (pfx : string) (i : nat) :
  extend pfx (Index i) = index_key pfx i.
Proof. destruct pfx; reflexivity. Qed.

(** The paths [_walk] writes are the canonical texts of the leaf positions,
    continued from the prefix. *)
Lemma walk_writes_leaves (node : yaml) :
  forall pfx, walk_writes node pfx = map (at_path pfx) (leaves node).
Proof.
  induction node as [s | items IH | elems IH |] using yaml_induction;
    intros pfx; try reflexivity.
  - destruct pfx; reflexivity.
  - simpl. induction IH as [|[k v] rest Hv _ IHrest].
    + reflexivity.
    + rewrite map_app, map_map, IHrest. simpl in Hv. now rewrite Hv.
  - simpl. generalize 0%nat.
    induction IH as [|v rest Hv _ IHrest]; intros i.
    + reflexivity.
    + rewrite map_app, map_map, IHrest, Hv. f_equal.
      apply map_ext. intros leaf. unfold at_path, under, render_from.
      cbn [fold_left fst snd]. now rewrite extend_index.
Qed.

Example render_nested :
  render [Field "http"; Field "routes"; Index 0; Field "path"]
  = "http.routes[0].path".
Proof. reflexivity. Qed.

(** C5. [flatten] records every scalar leaf at the canonical text of its
    position: a mapping key is joined to the current path with a dot, with
    no dot when the current path is empty, and a sequence position is
    appended as [[i]] with no dot before it.  The document
    [{routes: [{path: "/a"}, {path: "/b"}]}] flattens to exactly
    [routes[0].path -> "/a"] and [routes[1].path -> "/b"]. *)
Theorem flatten_canonical_paths (D : yaml) :
  flatten D "" =
    filter (fun kv => nonempty (fst kv))
      (dict_set_all
         (map (fun leaf => (render (fst leaf), snd leaf)) (leaves D)) [])
  /\ flatten routes_doc "" =
       [("routes[0].path", SStr "/a"); ("routes[1].path", SStr "/b")].
Proof.
  split; [|reflexivity].
  unfold flatten. now rewrite walk_performs_writes, walk_writes_leaves.
Qed.

(** ** Root documents *)

(** A bare [true] as the only document of a file does reach the
    comparison: the flattened result is not empty. *)
Lemma root_scalar_true_not_empty :
  flatten (YDict (merge_docs [YScalar (SBool true)])) "" <> [].
Proof. discriminate. Qed.

(** C4, as the program has it.  Loading a file whose only document is the
    bare scalar [true] and flattening the result gives the single entry
    [_ -> true]; it is [flatten] applied to the bare scalar itself that
    writes an entry at the empty path and filters it out. *)
Theorem root_scalar_true_flattened :
  flatten (YDict (merge_docs [YScalar (SBool true)])) "" = [("_", SBool true)]
  /\ walk_writes (YScalar (SBool true)) "" = [("", SBool true)]
  /\ flatten (YScalar (SBool true)) "" = [].
Proof. repeat split. Qed.

Lemma deep_merge_empty_single (k : string) (v : yaml) :
  deep_merge [] [(k, v)] = [(k, v)].
Proof. reflexivity. Qed.

(** A null root is a bare scalar and not a mapping, yet it is skipped, not
    wrapped: nothing is merged and no path [_] appears. *)
Lemma null_root_not_wrapped :
  is_dict (YScalar SNone) = false
  /\ merge_docs [YScalar SNone] = []
  /\ merge_docs [YScalar SNone] <> deep_merge [] [("_", YScalar SNone)]
  /\ flatten (YDict (merge_docs [YScalar SNone])) "" <> [("_", SNone)].
Proof. repeat split; discriminate. Qed.

(** C8, as the program has it.  A document whose root is neither a mapping
    nor null is merged as the one-field mapping [{_: d}]; a file holding
    just such a document loads as that mapping, and a bare scalar is
    flattened at the path [_], not at the empty path. *)
Theorem non_mapping_root_wrapped (d : yaml) :
  is_dict d = false ->
  is_none d = false ->
  (forall merged, merge_doc merged d = deep_merge merged [("_", d)])
  /\ merge_docs [d] = [("_", d)]
  /\ (forall s, d = YScalar s ->
                flatten (YDict (merge_docs [d])) "" = [("_", s)]).
Proof.
  intros Hdict Hnone.
  assert (Hstep : forall merged,
             merge_doc merged d = deep_merge merged [("_", d)]).
  { intros merged. unfold merge_doc. rewrite Hnone.
    destruct d; try reflexivity. discriminate. }
  assert (Hload : merge_docs [d] = [("_", d)]).
  { unfold merge_docs. simpl. rewrite Hstep. apply deep_merge_empty_single. }
  repeat split; try assumption.
  intros s ->. rewrite Hload. reflexivity.
Qed.

Lemma non_mapping_root_wrapped_witness :
  merge_docs [YList [YScalar (SInt 1)]] = [("_", YList [YScalar (SInt 1)])].
Proof.
  apply (non_mapping_root_wrapped (YList [YScalar (SInt 1)]));
    reflexivity.
Defined.

Lemma merge_doc_none (merged : dict yaml) :
  merge_doc merged (YScalar SNone) = merged.
Proof. reflexivity. Qed.

Lemma fold_merge_doc_none (docs : list yaml) (merged : dict yaml) :
  forallb is_none docs = true -> fold_left merge_doc docs merged = merged.
Proof.
  revert merged. induction docs as [|d docs IH]; simpl; intros merged H.
  - reflexivity.
  - apply andb_true_iff in H. destruct H as [Hd Hdocs].
    rewrite IH by assumption. unfold merge_doc. now rewrite Hd.
Qed.

(** C9. A file whose documents are all null (or that has no document)
    merges to the empty mapping, which flattens to no entry; and a null
    document anywhere in a file changes nothing: the file merges as it would
    without it. *)
Theorem null_documents_contribute_nothing (docs pre post : list yaml) :
  forallb is_none docs = true ->
  merge_docs docs = []
  /\ flatten (YDict (merge_docs docs)) "" = []
  /\ merge_docs (pre ++ YScalar SNone :: post) = merge_docs (pre ++ post).
Proof.
  intros Hdocs.
  assert (Hm : merge_docs docs = []) by now apply fold_merge_doc_none.
  repeat split.
  - exact Hm.
  - now rewrite Hm.
  - unfold merge_docs. now rewrite !fold_left_app.
Qed.

Lemma null_documents_contribute_nothing_witness :
  merge_docs [YScalar SNone; YScalar SNone] = []
  /\ flatten (YDict (merge_docs [YScalar SNone; YScalar SNone])) "" = []
  /\ merge_docs ([YDict config_a] ++ YScalar SNone :: [YDict config_b])
     = merge_docs ([YDict config_a] ++ [YDict config_b]).
Proof.
  apply (null_documents_contribute_nothing
           [YScalar SNone; YScalar SNone] [YDict config_a] [YDict config_b]).
  reflexivity.
Defined.

(** ** Equality across kinds *)

(** C10. A base holding the integer 1 and a profile holding [true] at the
    same path are reported as a duplicate, and so the other way round, for
    [false] against 0, and for the integer 8080 against the float 8080.0:
    [==] makes [True] equal to 1, [False] to 0, and an integer equal to the
    float of the same value. *)
Theorem cross_kind_duplicates :
  duplicates_of (at_key "flag" (SInt 1)) (at_key "flag" (SBool true))
    = [("flag", SBool true)]
  /\ duplicates_of (at_key "flag" (SBool true)) (at_key "flag" (SInt 1))
    = [("flag", SInt 1)]
  /\ duplicates_of (at_key "flag" (SInt 0)) (at_key "flag" (SBool false))
    = [("flag", SBool false)]
  /\ duplicates_of (at_key "flag" (SBool false)) (at_key "flag" (SInt 0))
    = [("flag", SInt 0)]
  /\ duplicates_of (at_key "port" (SInt 8080)) (at_key "port" (SFloat float_8080))
    = [("port", SFloat float_8080)]
  /\ duplicates_of (at_key "port" (SFloat float_8080)) (at_key "port" (SInt 8080))
    = [("port", SInt 8080)]
  /\ (forall b : bool,
         py_eq (SBool b) (SInt (if b then 1 else 0)) = true /\
         py_eq (SInt (if b then 1 else 0)) (SBool b) = true).
Proof.
  repeat split; try reflexivity; destruct b; reflexivity.
Qed.

(** No coercion between a string and a number: ["8080"] is not 8080. *)
Example string_is_not_number :
  duplicates_of (at_key "port" (SInt 8080)) (at_key "port" (SStr "8080")) = [].
Proof. reflexivity. Qed.

(** ** Distinct leaves, distinct paths *)

Lemma leaves_dict (items : list (string * yaml)) :
  leaves (YDict items) = leaves_items items.
Proof.
  simpl. induction items as [|[k v] rest IH]; simpl; [reflexivity|].
  now rewrite IH.
Qed.

Lemma leaves_list (es : list yaml) : leaves (YList es) = leaves_elems es 0.
Proof.
  simpl. generalize 0%nat. induction es as [|v rest IH]; intros i; simpl.
  - reflexivity.
  - now rewrite IH.
Qed.

Lemma plain_doc_dict (items : list (string * yaml)) :
  plain_doc (YDict items) =
  distinct_keys items &&
  forallb (fun kv => plain_key (fst kv) && plain_doc (snd kv)) items.
Proof.
  simpl. f_equal. induction items as [|[k v] rest IH]; simpl; [reflexivity|].
  now rewrite IH.
Qed.

Lemma plain_doc_list (es : list yaml) :
  plain_doc (YList es) = forallb plain_doc es.
Proof.
  simpl. induction es as [|v rest IH]; simpl; [reflexivity|].
  now rewrite IH.
Qed.

(** *** Strings *)

Lemma append_assoc (a b c : string) :
  ((a ++ b) ++ c = a ++ (b ++ c))%string.
Proof. induction a as [|x a IH]; simpl; [reflexivity | now rewrite IH]. Qed.

Lemma append_cancel_l (a b c : string) :
  (a ++ b = a ++ c)%string -> b = c.
Proof.
  induction a as [|x a IH]; simpl; intros H; [assumption|].
  injection H. exact IH.
Qed.

Lemma nonempty_append_l (a b : string) :
  nonempty a = true -> nonempty (a ++ b)%string = true.
Proof. destruct a; simpl; intros H; [discriminate | reflexivity]. Qed.

(** Two texts free of stop characters, each followed by the end or by a
    stop character, are equal when the whole strings are. *)
Lemma split_at_stop (stop : ascii -> bool) (s1 s2 r1 r2 : string) :
  all_chars (fun c => negb (stop c)) s1 = true ->
  all_chars (fun c => negb (stop c)) s2 = true ->
  stops_at stop r1 = true ->
  stops_at stop r2 = true ->
  (s1 ++ r1 = s2 ++ r2)%string ->
  s1 = s2 /\ r1 = r2.
Proof.
  revert s2. induction s1 as [|c1 s1 IH]; intros [|c2 s2] H1 H2 Hr1 Hr2 E;
    simpl in *.
  - now split.
  - subst r1. simpl in Hr1. apply andb_true_iff in H2.
    destruct H2 as [H2 _]. rewrite Hr1 in H2. discriminate.
  - subst r2. simpl in Hr2. apply andb_true_iff in H1.
    destruct H1 as [H1 _]. rewrite Hr2 in H1. discriminate.
  - apply andb_true_iff in H1, H2. destruct H1 as [_ H1], H2 as [_ H2].
    injection E as -> E. destruct (IH s2 H1 H2 Hr1 Hr2 E) as [-> ->].
    now split.
Qed.

Lemma string_of_uint_no_close (d : Decimal.uint) :
  all_chars (fun c => negb (is_close c)) (NilEmpty.string_of_uint d) = true.
Proof. induction d; simpl; auto. Qed.

Lemma str_nat_inj (i j : nat) : str_nat i = str_nat j -> i = j.
Proof.
  unfold str_nat. intros E. apply Unsigned.to_uint_inj.
  assert (H : Some (Nat.to_uint i) = Some (Nat.to_uint j))
    by now rewrite <- !NilEmpty.usu, E.
  now injection H.
Qed.

(** *** Rendering is injective on plain positions *)

Lemma stops_at_suffix (p : list segment) :
  stops_at is_separator (suffix p) = true.
Proof. destruct p as [|[k|i] p]; reflexivity. Qed.

Lemma plain_key_chars (k : string) :
  plain_key k = true ->
  all_chars (fun c => negb (is_separator c)) k = true.
Proof. unfold plain_key. intros H. now apply andb_true_iff in H. Qed.

Lemma plain_key_nonempty (k : string) :
  plain_key k = true -> nonempty k = true.
Proof. unfold plain_key. intros H. now apply andb_true_iff in H. Qed.

Lemma index_text_inj (i j : nat) (r1 r2 : string) :
  (str_nat i ++ "]" ++ r1 = str_nat j ++ "]" ++ r2)%string ->
  i = j /\ r1 = r2.
Proof.
  intros E.
  destruct (split_at_stop is_close (str_nat i) (str_nat j)
              ("]" ++ r1)%string ("]" ++ r2)%string) as [Hs Hr]; try reflexivity;
    try apply string_of_uint_no_close; try assumption.
  split; [now apply str_nat_inj | now injection Hr].
Qed.

Lemma suffix_inj (p1 p2 : list segment) :
  forallb plain_segment p1 = true ->
  forallb plain_segment p2 = true ->
  suffix p1 = suffix p2 -> p1 = p2.
Proof.
  revert p2. induction p1 as [|[k1|i1] p1 IH]; intros [|[k2|i2] p2] H1 H2 E;
    simpl in *; try discriminate; try reflexivity.
  - apply andb_true_iff in H1, H2. destruct H1 as [Hk1 H1], H2 as [Hk2 H2].
    injection E as E.
    destruct (split_at_stop is_separator k1 k2 (suffix p1) (suffix p2))
      as [-> Hr]; auto using plain_key_chars, stops_at_suffix.
    f_equal. now apply IH.
  - injection E as E. rewrite !append_assoc in E.
    apply index_text_inj in E. destruct E as [-> Hr].
    f_equal. now apply IH.
Qed.

Lemma render_from_suffix (p : list segment) :
  forall pfx, nonempty pfx = true ->
              render_from pfx p = (pfx ++ suffix p)%string.
Proof.
  unfold render_from. induction p as [|seg p IH]; intros pfx Hpfx; simpl.
  - clear Hpfx. induction pfx as [|c pfx IHp]; simpl; [|rewrite <- IHp];
      reflexivity.
  - assert (Hext : extend pfx seg = (pfx ++ seg_text seg)%string).
    { destruct seg as [k|i]; simpl; [now rewrite Hpfx | reflexivity]. }
    rewrite Hext, IH by now apply nonempty_append_l.
    apply append_assoc.
Qed.

Lemma render_cons (seg : segment) (p : list segment) :
  plain_segment seg = true ->
  render (seg :: p) = (head_text seg ++ suffix p)%string
  /\ nonempty (head_text seg) = true.
Proof.
  intros Hseg. unfold render, render_from. simpl.
  assert (Hne : nonempty (head_text seg) = true).
  { destruct seg as [k|i]; [now apply plain_key_nonempty | reflexivity]. }
  split; [|exact Hne].
  replace (extend "" seg) with (head_text seg) by now destruct seg.
  now apply render_from_suffix.
Qed.

Lemma render_inj (p1 p2 : list segment) :
  forallb plain_segment p1 = true ->
  forallb plain_segment p2 = true ->
  render p1 = render p2 -> p1 = p2.
Proof.
  intros H1 H2 E.
  destruct p1 as [|s1 p1], p2 as [|s2 p2]; [reflexivity | | |].
  - simpl in H2. apply andb_true_iff in H2. destruct H2 as [Hs2 _].
    destruct (render_cons s2 p2 Hs2) as [R Hne]. rewrite R in E.
    change (render []) with "" in E.
    destruct (head_text s2); [discriminate Hne | discriminate E].
  - simpl in H1. apply andb_true_iff in H1. destruct H1 as [Hs1 _].
    destruct (render_cons s1 p1 Hs1) as [R Hne]. rewrite R in E.
    change (render []) with "" in E.
    destruct (head_text s1); [discriminate Hne | discriminate E].
  - simpl in H1, H2. apply andb_true_iff in H1, H2.
    destruct H1 as [Hs1 H1], H2 as [Hs2 H2].
    destruct (render_cons s1 p1 Hs1) as [R1 _].
    destruct (render_cons s2 p2 Hs2) as [R2 _].
    rewrite R1, R2 in E. clear R1 R2.
    destruct s1 as [k1|i1], s2 as [k2|i2]; simpl in *.
    + destruct (split_at_stop is_separator k1 k2 (suffix p1) (suffix p2))
        as [-> Hr]; auto using plain_key_chars, stops_at_suffix.
      f_equal. now apply suffix_inj.
    + exfalso. unfold plain_key in Hs1. destruct k1 as [|c k1]; [discriminate|].
      simpl in Hs1, E. injection E as -> _. discriminate.
    + exfalso. unfold plain_key in Hs2. destruct k2 as [|c k2]; [discriminate|].
      simpl in Hs2, E. injection E as <- _. discriminate.
    + injection E as E. rewrite !append_assoc in E.
      apply index_text_inj in E. destruct E as [-> Hr].
      f_equal. now apply suffix_inj.
Qed.

(** *** Positions of the leaves *)

Lemma map_fst_under (seg : segment) (l : list (list segment * scalar)) :
  map fst (map (under seg) l) = map (cons seg) (map fst l).
Proof. rewrite !map_map. reflexivity. Qed.

Lemma NoDup_map_cons (seg : segment) (l : list (list segment)) :
  NoDup l -> NoDup (map (cons seg) l).
Proof.
  apply NoDup_map_NoDup_ForallPairs. intros x y _ _ E. now injection E.
Qed.

Lemma in_leaves_items (items : list (string * yaml)) (p : list segment) :
  In p (map fst (leaves_items items)) ->
  exists k p', p = Field k :: p' /\ In k (keys items).
Proof.
  induction items as [|[k v] rest IH]; simpl; [contradiction|].
  rewrite map_app, in_app_iff, map_fst_under, in_map_iff.
  intros [[p' [<- _]] | Hin].
  - exists k, p'. auto.
  - destruct (IH Hin) as [k' [p' [-> Hk']]]. exists k', p'. auto.
Qed.

Lemma in_leaves_elems (es : list yaml) (p : list segment) :
  forall i, In p (map fst (leaves_elems es i)) ->
            exists j p', p = Index j :: p' /\ i <= j.
Proof.
  induction es as [|v rest IH]; simpl; intros i; [contradiction|].
  rewrite map_app, in_app_iff, map_fst_under, in_map_iff.
  intros [[p' [<- _]] | Hin].
  - exists i, p'. auto.
  - destruct (IH _ Hin) as [j [p' [-> Hj]]]. exists j, p'. split; [auto|lia].
Qed.

(** Two leaves of a document never share a position. *)
Lemma leaves_positions_distinct (node : yaml) :
  plain_doc node = true -> NoDup (map fst (leaves node)).
Proof.
  induction node as [s | items IH | elems IH |] using yaml_induction;
    intros Hplain.
  - repeat constructor. intros [].
  - rewrite leaves_dict. rewrite plain_doc_dict in Hplain.
    apply andb_true_iff in Hplain. destruct Hplain as [Hkeys Hall].
    apply distinct_strings_NoDup in Hkeys.
    induction IH as [|[k v] rest Hv _ IHrest]; simpl; [constructor|].
    simpl in Hkeys, Hall, Hv. inversion Hkeys as [|? ? Hk Hrest]; subst.
    apply andb_true_iff in Hall. destruct Hall as [Hkv Hall].
    apply andb_true_iff in Hkv. destruct Hkv as [_ Hpv].
    rewrite map_app, map_fst_under. apply NoDup_app.
    + apply NoDup_map_cons. auto.
    + auto.
    + intros p Hin1 Hin2. apply in_map_iff in Hin1.
      destruct Hin1 as [p1 [<- _]].
      apply in_leaves_items in Hin2. destruct Hin2 as [k' [p' [E Hk']]].
      injection E as <- _. contradiction.
  - rewrite leaves_list. rewrite plain_doc_list in Hplain.
    generalize 0%nat.
    induction IH as [|v rest Hv _ IHrest]; simpl; intros i; [constructor|].
    simpl in Hplain. apply andb_true_iff in Hplain.
    destruct Hplain as [Hpv Hall].
    rewrite map_app, map_fst_under. apply NoDup_app.
    + apply NoDup_map_cons. auto.
    + auto.
    + intros p Hin1 Hin2. apply in_map_iff in Hin1.
      destruct Hin1 as [p1 [<- _]].
      apply in_leaves_elems in Hin2. destruct Hin2 as [j [p' [E Hj]]].
      injection E as <- _. lia.
  - constructor.
Qed.

Lemma leaves_positions_plain (node : yaml) :
  plain_doc node = true ->
  Forall (fun p => forallb plain_segment p = true) (map fst (leaves node)).
Proof.
  induction node as [s | items IH | elems IH |] using yaml_induction;
    intros Hplain.
  - repeat constructor.
  - rewrite leaves_dict. rewrite plain_doc_dict in Hplain.
    apply andb_true_iff in Hplain. destruct Hplain as [_ Hall].
    induction IH as [|[k v] rest Hv _ IHrest]; simpl; [constructor|].
    simpl in Hall, Hv. apply andb_true_iff in Hall. destruct Hall as [Hkv Hall].
    apply andb_true_iff in Hkv. destruct Hkv as [Hk Hpv].
    rewrite map_app, map_fst_under. apply Forall_app. split; [|auto].
    apply Forall_map. eapply Forall_impl; [|exact (Hv Hpv)].
    intros p Hp. simpl. now rewrite Hk.
  - rewrite leaves_list. rewrite plain_doc_list in Hplain.
    generalize 0%nat.
    induction IH as [|v rest Hv _ IHrest]; simpl; intros i; [constructor|].
    simpl in Hplain. apply andb_true_iff in Hplain.
    destruct Hplain as [Hpv Hall].
    rewrite map_app, map_fst_under. apply Forall_app. split; [|auto].
    apply Forall_map. eapply Forall_impl; [|exact (Hv Hpv)].
    intros p Hp. exact Hp.
  - constructor.
Qed.

(** *** Paths of a flattened document *)

(** Two leaves are recorded at the path [a.b]; the later one replaces the
    earlier one in the result. *)
Lemma flatten_paths_collide :
  walk_writes colliding_doc "" = [("a.b", SInt 1); ("a.b", SInt 2)]
  /\ ~ NoDup (map fst (walk_writes colliding_doc ""))
  /\ flatten colliding_doc "" = [("a.b", SInt 2)].
Proof.
  repeat split. intros H. simpl in H. inversion H as [|? ? Hnin _]; subst.
  apply Hnin. now left.
Qed.

(** So do two keys of one mapping with the same text, as [1] and ["1"]. *)
Example same_text_keys_collide :
  walk_writes same_text_doc "" = [("1", SStr "x"); ("1", SStr "y")]
  /\ flatten same_text_doc "" = [("1", SStr "y")]
  /\ plain_doc same_text_doc = false.
Proof. repeat split. Qed.

Lemma map_fst_at_path (pfx : string) (l : list (list segment * scalar)) :
  map fst (map (at_path pfx) l) = map (render_from pfx) (map fst l).
Proof. rewrite !map_map. reflexivity. Qed.

Lemma walk_writes_distinct (D : yaml) :
  plain_doc D = true -> NoDup (map fst (walk_writes D "")).
Proof.
  intros Hplain. rewrite walk_writes_leaves, map_fst_at_path.
  apply NoDup_map_NoDup_ForallPairs.
  - pose proof (leaves_positions_plain D Hplain) as Hall.
    rewrite Forall_forall in Hall.
    intros p1 p2 H1 H2 E. apply render_inj; auto.
  - now apply leaves_positions_distinct.
Qed.

(** C3, as the program has it.  The mapping [flatten] returns never holds a
    path twice.  The entries recorded on the way can: two leaves may render
    to one path.  They cannot when, in every mapping of the document, the
    texts [str(k)] of the keys are pairwise distinct, non-empty and free of
    [.] and [[]: then every leaf is recorded at a path of its own, and
    [flatten] returns all of them but a root scalar's. *)
Theorem flatten_paths_unique (D : yaml) :
  NoDup (keys (flatten D "")) /\
  (plain_doc D = true ->
   NoDup (map fst (walk_writes D "")) /\
   flatten D "" = filter (fun kv => nonempty (fst kv)) (walk_writes D "")).
Proof.
  split.
  - unfold flatten. rewrite walk_performs_writes.
    apply NoDup_keys_filter, NoDup_keys_dict_set_all. constructor.
  - intros Hplain. pose proof (walk_writes_distinct D Hplain) as Hnd.
    split; [exact Hnd|].
    unfold flatten. rewrite walk_performs_writes.
    now rewrite (dict_set_all_distinct (walk_writes D "") []).
Qed.

Lemma flatten_paths_unique_witness :
  plain_doc server_doc = true /\
  NoDup (map fst (walk_writes server_doc "")) /\
  flatten server_doc "" =
    [("server.port", SInt 8080); ("server.hosts[0]", SStr "a");
     ("server.hosts[1]", SStr "b"); ("debug", SBool false)].
Proof.
  split; [reflexivity|].
  destruct (flatten_paths_unique server_doc) as [_ H].
  destruct (H eq_refl) as [Hnd Hflat].
  split; [exact Hnd | reflexivity].
Defined.

(** ** Load failures *)

(** C7. When reading or parsing the base file or the profile file fails,
    [compare_and_report] does not raise: it prints one line starting with
    [ERROR: Failed to load] and returns 0; the loop over the profiles then
    goes on with the remaining profiles and an unchanged total. *)
Theorem load_failure_contributes_nothing
  (read_docs : string -> outcome (list yaml))
  (merge_raises : list yaml -> option exn) (repr : scalar -> outcome string)
  (walk_raises : yaml -> option exn)
  (base_path profile_path : string) :
  fails (read_docs base_path) || fails (read_docs profile_path) = true ->
  exists line,
    String.prefix "ERROR: Failed to load " line = true /\
    forall out,
      compare_and_report read_docs merge_raises repr walk_raises base_path
          profile_path out
      = (out ++ [line], Returned 0%nat) /\
      forall rest total,
        process_profiles read_docs merge_raises repr walk_raises base_path
          (profile_path :: rest) total out
        = process_profiles read_docs merge_raises repr walk_raises base_path
            rest total
            (out ++ [line]).
Proof.
  intros Hfail.
  assert (Hcmp : exists line,
             String.prefix "ERROR: Failed to load " line = true /\
             forall out,
               compare_and_report read_docs merge_raises repr walk_raises
                   base_path profile_path out
               = (out ++ [line], Returned 0%nat)).
  { unfold compare_and_report, bind, try, load_yaml_merged, print, ret.
    destruct (read_docs base_path) as [base_docs|e].
    - destruct (read_docs profile_path) as [prof_docs|e]; [discriminate|].
      destruct (merge_raises base_docs);
        eexists; (split; [|intros out; reflexivity]); reflexivity.
    - eexists. split; [|intros out; reflexivity]. reflexivity. }
  destruct Hcmp as [line [Hline Hcmp]].
  exists line. split; [exact Hline|]. intros out. split; [apply Hcmp|].
  intros rest total. simpl. unfold bind at 1. rewrite Hcmp.
  now rewrite Nat.add_0_r.
Qed.

Lemma load_failure_contributes_nothing_witness :
  exists line,
    String.prefix "ERROR: Failed to load " line = true /\
    forall out,
      compare_and_report broken_profile no_merge_limit plain_repr no_limit
        "application.yaml" "application-dev.yaml" out
      = (out ++ [line], Returned 0%nat) /\
      forall rest total,
        process_profiles broken_profile no_merge_limit plain_repr no_limit
            "application.yaml"
          ("application-dev.yaml" :: rest) total out
        = process_profiles broken_profile no_merge_limit plain_repr no_limit
            "application.yaml"
            rest total (out ++ [line]).
Proof.
  apply (load_failure_contributes_nothing broken_profile no_merge_limit
      plain_repr no_limit
           "application.yaml" "application-dev.yaml").
  reflexivity.
Defined.

(** A folder with a profile that fails to parse and one that repeats the
    base: one diagnostic, then the four findings. *)
Example process_profiles_goes_on :
  process_profiles broken_profile no_merge_limit plain_repr no_limit
      "application.yaml"
    ["application-dev.yaml"; "application-prod.yaml"] 0 []
  = (["ERROR: Failed to load profile YAML 'application-dev.yaml': mapping values are not allowed here";
      "ERROR: application-prod.yaml: key 'debug' duplicates base value False";
      "ERROR: application-prod.yaml: key 'server.hosts[0]' duplicates base value 'a'";
      "ERROR: application-prod.yaml: key 'server.hosts[1]' duplicates base value 'b'";
      "ERROR: application-prod.yaml: key 'server.port' duplicates base value 8080"],
     Returned 4%nat).
Proof. vm_compute. reflexivity. Qed.

(** * Further properties *)

(** ** More on the merger *)

Lemma In_keys {V : Type} (k : string) (v : V) (d : dict V) :
  In (k, v) d -> In k (keys d).
Proof. intros H. unfold keys. change k with (fst (k, v)). now apply in_map. Qed.

Lemma dict_get_In {V : Type} (k : string) (v : V) (d : dict V) :
  dict_get k d = Some v -> In (k, v) d.
Proof.
  induction d as [|[k' v'] d IH]; simpl; [discriminate|].
  destruct (String.eqb k' k) eqn:E.
  - apply String.eqb_eq in E. intros [= ->]. left. now subst.
  - auto.
Qed.

Lemma In_dict_get {V : Type} (k : string) (v : V) (d : dict V) :
  NoDup (keys d) -> In (k, v) d -> dict_get k d = Some v.
Proof.
  induction d as [|[k' v'] d IH]; simpl; intros Hd Hin; [contradiction|].
  inversion Hd as [|? ? Hk' Hd']; subst.
  destruct Hin as [[= -> ->]|Hin].
  - now rewrite String.eqb_refl.
  - destruct (String.eqb k' k) eqn:E; [|auto].
    apply String.eqb_eq in E. subst k'. elim Hk'. eapply In_keys; eauto.
Qed.

Lemma dict_get_Some_keys {V : Type} (k : string) (d : dict V) :
  In k (keys d) <-> exists v, dict_get k d = Some v.
Proof.
  split.
  - unfold keys. induction d as [|[k' v'] d IH]; simpl; [contradiction|].
    destruct (String.eqb k' k) eqn:E; [eauto|].
    intros [->|Hin]; [now rewrite String.eqb_refl in E | auto].
  - intros [v Hv]. eapply In_keys, dict_get_In; eauto.
Qed.

Lemma dict_set_same_value {V : Type} (k : string) (v : V) (d : dict V) :
  dict_get k d = Some v -> dict_set k v d = d.
Proof.
  induction d as [|[k' v'] d IH]; simpl; [discriminate|].
  destruct (String.eqb k' k) eqn:E.
  - now intros [= ->].
  - intros H. now rewrite IH.
Qed.

Lemma keys_dict_set {V : Type} (k : string) (v : V) (d : dict V) :
  keys (dict_set k v d) =
  if existsb (String.eqb k) (keys d) then keys d else keys d ++ [k].
Proof.
  destruct (existsb (String.eqb k) (keys d)) eqn:E.
  - apply keys_dict_set_in. now apply existsb_eqb_In.
  - rewrite dict_set_fresh.
    + unfold keys. now rewrite map_app.
    + intros Hin. apply existsb_eqb_In in Hin. congruence.
Qed.

Lemma keys_merge_item (a : dict yaml) (k : string) (v : yaml) :
  keys (merge_item a k v) =
  if existsb (String.eqb k) (keys a) then keys a else keys a ++ [k].
Proof.
  unfold merge_item.
  destruct (dict_get k a) as [[| m | |]|]; try apply keys_dict_set.
  destruct v; apply keys_dict_set.
Qed.

Lemma NoDup_keys_deep_merge (b a : dict yaml) :
  NoDup (keys a) -> NoDup (keys (deep_merge a b)).
Proof.
  revert a. induction b as [|[k v] b IH]; intros a Ha; [assumption|].
  rewrite deep_merge_cons. apply IH. rewrite keys_merge_item.
  destruct (existsb (String.eqb k) (keys a)) eqn:E; [assumption|].
  apply NoDup_rev in Ha. rewrite <- (rev_involutive (keys a ++ [k])).
  apply NoDup_rev. rewrite rev_app_distr. simpl. constructor; [|assumption].
  rewrite <- in_rev. intros Hin. apply existsb_eqb_In in Hin. congruence.
Qed.

(** The keys of [deep_merge(a, b)] are those of [a], in place, followed by
    the keys of [b] that [a] lacks, in [b]'s order; a key is never dropped
    or repeated. *)
Theorem deep_merge_keys (a b : dict yaml) :
  distinct_keys b = true ->
  keys (deep_merge a b) =
    keys a ++ filter (fun k => negb (existsb (String.eqb k) (keys a))) (keys b)
  /\ (distinct_keys a = true -> distinct_keys (deep_merge a b) = true).
Proof.
  intros Hb. split.
  - apply distinct_strings_NoDup in Hb. revert a Hb.
    induction b as [|[k v] b IH]; intros a Hb.
    + simpl. now rewrite app_nil_r.
    + rewrite deep_merge_cons. simpl in Hb.
      inversion Hb as [|? ? Hk Hb']; subst.
      rewrite IH by assumption. rewrite keys_merge_item. simpl.
      destruct (existsb (String.eqb k) (keys a)) eqn:E; simpl.
      * reflexivity.
      * rewrite <- app_assoc. simpl. do 2 f_equal.
        apply filter_ext_in. intros k' Hk'. f_equal.
        rewrite existsb_app. simpl. rewrite orb_false_r.
        destruct (String.eqb k' k) eqn:E'; [|now rewrite orb_false_r].
        apply String.eqb_eq in E'. subst k'. contradiction.
  - intros Ha. apply distinct_strings_NoDup.
    apply NoDup_keys_deep_merge. now apply distinct_strings_NoDup.
Qed.

Lemma deep_merge_keys_witness :
  keys (deep_merge config_a config_b) = ["a"; "b"; "c"; "d"]
  /\ distinct_keys (deep_merge config_a config_b) = true.
Proof.
  destruct (deep_merge_keys config_a config_b eq_refl) as [Hk Hd].
  split; [exact Hk | exact (Hd eq_refl)].
Defined.

Lemma deep_merge_append (b a : dict yaml) :
  NoDup (keys (a ++ b)) -> deep_merge a b = a ++ b.
Proof.
  revert a. induction b as [|[k v] b IH]; intros a Hab.
  - now rewrite app_nil_r.
  - rewrite deep_merge_cons.
    assert (Hnin : ~ In k (keys a)).
    { unfold keys in *. rewrite map_app in Hab. simpl in Hab.
      apply NoDup_remove_2 in Hab. intros Hin. apply Hab.
      apply in_or_app. now left. }
    assert (Hitem : merge_item a k v = a ++ [(k, v)]).
    { unfold merge_item. rewrite (dict_get_None k a Hnin).
      now apply dict_set_fresh. }
    rewrite Hitem, IH; rewrite <- app_assoc; simpl; [reflexivity|assumption].
Qed.

(** Merging mappings that share no key is putting one after the other. *)
Theorem deep_merge_disjoint (a b : dict yaml) :
  distinct_keys (a ++ b) = true -> deep_merge a b = a ++ b.
Proof.
  intros H. apply deep_merge_append. now apply distinct_strings_NoDup.
Qed.

Lemma deep_merge_disjoint_witness :
  deep_merge [("c", YScalar (SStr "keep"))] config_b
  = ("c", YScalar (SStr "keep")) :: config_b.
Proof.
  apply (deep_merge_disjoint [("c", YScalar (SStr "keep"))] config_b).
  reflexivity.
Defined.

Lemma distinct_deep_dict (items : list (string * yaml)) :
  distinct_deep (YDict items) =
  distinct_keys items && forallb (fun kv => distinct_deep (snd kv)) items.
Proof.
  simpl. f_equal. induction items as [|[k v] rest IH]; simpl; [reflexivity|].
  now rewrite IH.
Qed.

Lemma distinct_deep_get (m : dict yaml) (k : string) (v : yaml) :
  distinct_deep (YDict m) = true -> dict_get k m = Some v ->
  distinct_deep v = true.
Proof.
  rewrite distinct_deep_dict. intros H Hget.
  apply andb_true_iff in H. destruct H as [_ Hall].
  rewrite forallb_forall in Hall. apply dict_get_In in Hget.
  exact (Hall _ Hget).
Qed.

Lemma distinct_deep_keys (m : dict yaml) :
  distinct_deep (YDict m) = true -> NoDup (keys m).
Proof.
  rewrite distinct_deep_dict. intros H. apply andb_true_iff in H.
  now apply distinct_strings_NoDup.
Qed.

(** Merging into [a] items that [a] already holds, each merged with itself
    unchanged, leaves [a] as it is. *)
Lemma deep_merge_held (b a : dict yaml) :
  (forall k v, In (k, v) b -> dict_get k a = Some v) ->
  (forall k m, In (k, YDict m) b -> deep_merge m m = m) ->
  deep_merge a b = a.
Proof.
  induction b as [|[k v] b IH]; intros Hheld Hself; [reflexivity|].
  rewrite deep_merge_cons.
  assert (Hitem : merge_item a k v = a).
  { unfold merge_item. rewrite (Hheld k v) by now left.
    destruct v as [s | m | l |]; try (apply dict_set_same_value, Hheld; now left).
    rewrite (Hself k m) by now left.
    apply dict_set_same_value, Hheld. now left. }
  rewrite Hitem. apply IH; intros; [apply Hheld | eapply Hself]; right; eauto.
Qed.

Lemma deep_merge_self (node : yaml) :
  distinct_deep node = true ->
  forall a, node = YDict a -> deep_merge a a = a.
Proof.
  induction node as [s | items IH | elems IH |] using yaml_induction;
    intros Hwf a E; try discriminate.
  injection E as <-. pose proof (distinct_deep_keys _ Hwf) as Hnd.
  rewrite Forall_forall in IH.
  apply deep_merge_held.
  - intros k v Hin. now apply In_dict_get.
  - intros k m Hin. apply (IH (k, YDict m) Hin); [|reflexivity].
    apply (distinct_deep_get items k); [exact Hwf|]. now apply In_dict_get.
Qed.

(** Merging a mapping with itself changes nothing, at any depth; so a file
    that repeats a document loads as the document alone. *)
Theorem deep_merge_idempotent (a : dict yaml) :
  distinct_deep (YDict a) = true ->
  deep_merge a a = a
  /\ merge_docs [YDict a] = a
  /\ merge_docs [YDict a; YDict a] = a.
Proof.
  intros Hwf.
  assert (Hself : deep_merge a a = a) by now apply (deep_merge_self (YDict a)).
  assert (Hone : merge_docs [YDict a] = a).
  { unfold merge_docs. simpl. unfold merge_doc. simpl.
    apply deep_merge_append. simpl. now apply distinct_deep_keys. }
  repeat split; try assumption.
  change (merge_docs [YDict a; YDict a])
    with (merge_doc (merge_docs [YDict a]) (YDict a)).
  rewrite Hone. exact Hself.
Qed.

Lemma deep_merge_idempotent_witness :
  deep_merge config_a config_a = config_a
  /\ merge_docs [YDict config_a] = config_a
  /\ merge_docs [YDict config_a; YDict config_a] = config_a.
Proof. apply (deep_merge_idempotent config_a). reflexivity. Defined.

(** *** Overriding at depth *)

Lemma get_in_dict (k : string) (ks : list string) (m : dict yaml) :
  get_in (k :: ks) (YDict m) =
  match dict_get k m with
  | Some v => get_in ks v
  | None => None
  end.
Proof. reflexivity. Qed.

Lemma get_in_deep_merge_set (ks : list string) :
  forall (a b : dict yaml) (v : yaml),
    distinct_deep (YDict b) = true ->
    get_in ks (YDict b) = Some v ->
    is_dict v = false ->
    get_in ks (YDict (deep_merge a b)) = Some v.
Proof.
  induction ks as [|k ks IH]; intros a b v Hwf Hget Hv.
  - injection Hget as <-. discriminate.
  - rewrite get_in_dict in *.
    rewrite dict_get_deep_merge by now apply distinct_deep_keys.
    destruct (dict_get k b) as [vb|] eqn:Hkb; [|discriminate].
    pose proof (distinct_deep_get _ _ _ Hwf Hkb) as Hwfb.
    unfold merged_value.
    destruct (dict_get k a) as [[| ma | |]|]; try exact Hget.
    destruct vb as [| mb | |]; try exact Hget.
    now apply IH.
Qed.

(** Values in [b] override values in [a]: a value of [b] that is not a
    mapping, found at any depth by a path of keys, is the value at that path
    in [deep_merge(a, b)]. *)
Theorem deep_merge_overrides (ks : list string) :
  forall (a b : dict yaml) (v : yaml),
    distinct_deep (YDict b) = true ->
    get_in ks (YDict b) = Some v ->
    is_dict v = false ->
    get_in ks (YDict (deep_merge a b)) = Some v.
Proof. exact (get_in_deep_merge_set ks). Qed.

Lemma deep_merge_overrides_witness :
  get_in ["b"; "z"] (YDict (deep_merge config_a config_b))
  = Some (YScalar SNone).
Proof.
  apply (deep_merge_overrides ["b"; "z"] config_a config_b); reflexivity.
Defined.

Lemma untouched_get_in (ks : list string) :
  forall b, untouched ks b = true -> get_in ks b = None.
Proof.
  induction ks as [|k ks IH]; intros b H; [discriminate|].
  destruct b as [| m | |]; try reflexivity.
  simpl in *. destruct (dict_get k m) as [v|]; [|reflexivity].
  apply andb_true_iff in H. destruct H as [_ H]. now apply IH.
Qed.

Lemma get_in_deep_merge_kept (ks : list string) :
  forall a b : dict yaml,
    distinct_deep (YDict b) = true ->
    untouched ks (YDict b) = true ->
    get_in ks (YDict (deep_merge a b)) = get_in ks (YDict a).
Proof.
  induction ks as [|k ks IH]; intros a b Hwf Hun; [discriminate|].
  rewrite !get_in_dict.
  rewrite dict_get_deep_merge by now apply distinct_deep_keys.
  simpl in Hun. destruct (dict_get k b) as [vb|] eqn:Hkb; [|reflexivity].
  apply andb_true_iff in Hun. destruct Hun as [Hd Hun].
  destruct vb as [| mb | |]; try discriminate.
  pose proof (distinct_deep_get _ _ _ Hwf Hkb) as Hwfb.
  unfold merged_value.
  destruct (dict_get k a) as [[s | ma | l |]|].
  - rewrite (untouched_get_in _ _ Hun). now destruct ks.
  - now apply IH.
  - rewrite (untouched_get_in _ _ Hun). now destruct ks.
  - rewrite (untouched_get_in _ _ Hun). now destruct ks.
  - apply (untouched_get_in _ _ Hun).
Qed.

(** What [b] does not reach stays as [a] has it: along a path of keys that
    leaves [b] at a key [b] lacks, [deep_merge(a, b)] holds what [a]
    holds. *)
Theorem deep_merge_keeps (ks : list string) :
  forall a b : dict yaml,
    distinct_deep (YDict b) = true ->
    untouched ks (YDict b) = true ->
    get_in ks (YDict (deep_merge a b)) = get_in ks (YDict a).
Proof. exact (get_in_deep_merge_kept ks). Qed.

Lemma deep_merge_keeps_witness :
  get_in ["a"; "x"] (YDict (deep_merge config_a config_b))
  = Some (YScalar (SInt 1)).
Proof.
  apply (deep_merge_keeps ["a"; "x"] config_a config_b); reflexivity.
Defined.

(** ** More on the flattener *)

Lemma In_dict_set {V : Type} (k k0 : string) (v v0 : V) (d : dict V) :
  In (k, v) (dict_set k0 v0 d) -> (k, v) = (k0, v0) \/ In (k, v) d.
Proof.
  induction d as [|[k' v'] d IH]; simpl.
  - intros [H|[]]. now left.
  - destruct (String.eqb k' k0) eqn:E; simpl.
    + apply String.eqb_eq in E. subst k'. intros [H|H]; [now left | auto].
    + intros [H|H]; [auto|]. destruct (IH H); auto.
Qed.

Lemma In_dict_set_all {V : Type} (k : string) (v : V)
  (ws : list (string * V)) :
  forall d, In (k, v) (dict_set_all ws d) -> In (k, v) d \/ In (k, v) ws.
Proof.
  induction ws as [|[k0 v0] ws IH]; simpl; intros d H; [now left|].
  destruct (IH _ H) as [Hd|Hws]; [|auto].
  destruct (In_dict_set _ _ _ _ _ Hd) as [E|Hd']; auto.
Qed.

(** [flatten] invents nothing: every entry it returns is a scalar leaf of
    the document, under the canonical text of that leaf's position, and no
    entry has the empty path. *)
Theorem flatten_sound (D : yaml) (path : string) (s : scalar) :
  In (path, s) (flatten D "") ->
  nonempty path = true /\
  exists pos, In (pos, s) (leaves D) /\ render pos = path.
Proof.
  unfold flatten. rewrite filter_In. simpl. intros [Hin Hne].
  split; [exact Hne|].
  rewrite walk_performs_writes, walk_writes_leaves in Hin.
  apply In_dict_set_all in Hin. destruct Hin as [[]|Hin].
  apply in_map_iff in Hin. destruct Hin as [[pos s'] [E Hin]].
  unfold at_path in E. simpl in E. injection E as E <-.
  exists pos. split; [exact Hin | exact E].
Qed.

Lemma flatten_sound_witness :
  nonempty "server.port" = true /\
  exists pos, In (pos, SInt 8080) (leaves server_doc)
              /\ render pos = "server.port".
Proof.
  apply (flatten_sound server_doc "server.port" (SInt 8080)).
  simpl. now left.
Defined.

Lemma dict_get_dict_set_all {V : Type} (k : string) (ws : list (string * V)) :
  forall d,
    dict_get k (dict_set_all ws d) =
    match lookup_last k ws with
    | Some v => Some v
    | None => dict_get k d
    end.
Proof.
  induction ws as [|[k0 v0] ws IH]; intros d; simpl; [reflexivity|].
  rewrite IH. destruct (lookup_last k ws); [reflexivity|].
  destruct (String.eqb k0 k) eqn:E.
  - apply String.eqb_eq in E. subst k0. apply dict_get_set_same.
  - apply String.eqb_neq in E. now apply dict_get_set_other.
Qed.

Lemma dict_get_filter_nonempty {V : Type} (k : string) (d : dict V) :
  dict_get k (filter (fun kv => nonempty (fst kv)) d) =
  if nonempty k then dict_get k d else None.
Proof.
  induction d as [|[k' v'] d IH]; simpl; [now destruct (nonempty k)|].
  destruct (nonempty k') eqn:Hk'; simpl.
  - rewrite IH. destruct (String.eqb k' k) eqn:E; [|reflexivity].
    apply String.eqb_eq in E. subst k'. now rewrite Hk'.
  - rewrite IH. destruct (String.eqb k' k) eqn:E; [|reflexivity].
    apply String.eqb_eq in E. subst k'. now rewrite Hk'.
Qed.

(** What [flatten] holds at a path, for any document: the value of the last
    leaf, in document order, whose position renders to that path; nothing
    at the empty path. *)
Theorem flatten_last_leaf_wins (D : yaml) (path : string) :
  dict_get path (flatten D "") =
  if nonempty path
  then lookup_last path
         (map (fun leaf => (render (fst leaf), snd leaf)) (leaves D))
  else None.
Proof.
  unfold flatten. rewrite dict_get_filter_nonempty.
  destruct (nonempty path); [|reflexivity].
  rewrite walk_performs_writes, walk_writes_leaves, dict_get_dict_set_all.
  unfold at_path, render.
  now destruct (lookup_last path _).
Qed.

Lemma render_nonempty (pos : list segment) :
  forallb plain_segment pos = true -> pos <> [] ->
  nonempty (render pos) = true.
Proof.
  destruct pos as [|seg p]; [congruence|]. simpl. intros H _.
  apply andb_true_iff in H. destruct H as [Hseg _].
  destruct (render_cons seg p Hseg) as [-> Hne].
  now apply nonempty_append_l.
Qed.

Lemma NoDup_keys_flatten (D : yaml) (pfx : string) :
  NoDup (keys (flatten D pfx)).
Proof.
  unfold flatten. rewrite walk_performs_writes.
  apply NoDup_keys_filter, NoDup_keys_dict_set_all. constructor.
Qed.

(** In a document where, in every mapping, the texts [str(k)] of the keys
    are pairwise distinct, non-empty and free of [.] and [[], every scalar
    leaf below the root is found again: looking up the canonical text of
    its position in [flatten]'s result gives its value. *)
Theorem flatten_lookup (D : yaml) (pos : list segment) (s : scalar) :
  plain_doc D = true ->
  In (pos, s) (leaves D) ->
  pos <> [] ->
  dict_get (render pos) (flatten D "") = Some s.
Proof.
  intros Hplain Hin Hpos.
  apply In_dict_get; [apply NoDup_keys_flatten|].
  unfold flatten. rewrite walk_performs_writes.
  rewrite (dict_set_all_distinct (walk_writes D "") [])
    by (simpl; now apply walk_writes_distinct).
  apply filter_In. simpl. split.
  - rewrite walk_writes_leaves. apply in_map_iff.
    exists (pos, s). split; [reflexivity | exact Hin].
  - apply render_nonempty; [|exact Hpos].
    pose proof (leaves_positions_plain D Hplain) as Hall.
    rewrite Forall_forall in Hall. apply Hall.
    change pos with (fst (pos, s)). now apply in_map.
Qed.

Lemma flatten_lookup_witness :
  dict_get "server.hosts[1]" (flatten server_doc "") = Some (SStr "b").
Proof.
  apply (flatten_lookup server_doc
           [Field "server"; Field "hosts"; Index 1] (SStr "b")).
  - reflexivity.
  - simpl. right. right. now left.
  - discriminate.
Defined.

(** ** More on the comparator *)

Lemma ltb_of_leb (a b : string) :
  String.leb a b = true -> a <> b -> String.ltb a b = true.
Proof.
  unfold String.leb, String.ltb. destruct (String.compare a b) eqn:E;
    try easy. intros _ Hne. elim Hne. now apply String.compare_eq_iff.
Qed.

Lemma ltb_asym (a b : string) :
  String.ltb a b = true -> String.ltb b a = true -> False.
Proof.
  unfold String.ltb. rewrite (String.compare_antisym a b).
  destruct (String.compare b a); simpl; intros H1 H2; discriminate.
Qed.

Lemma ltb_irrefl (a : string) : String.ltb a a = true -> False.
Proof. intros H. exact (ltb_asym a a H H). Qed.

Lemma strictly_sorted (l : list (string * scalar)) :
  StronglySorted path_le l -> NoDup (keys l) -> StronglySorted path_lt l.
Proof.
  induction 1 as [|x l Hl IH Hx]; intros Hnd; constructor.
  - apply IH. simpl in Hnd. now inversion Hnd.
  - simpl in Hnd. inversion Hnd as [|? ? Hnin _]; subst.
    rewrite Forall_forall in *. intros y Hy. unfold path_lt, path_le in *.
    apply ltb_of_leb; [now apply Hx|].
    intros E. apply Hnin. rewrite E. unfold keys. now apply in_map.
Qed.

Lemma NoDup_keys_find_duplicates (base_flat prof_flat : dict scalar) :
  NoDup (keys prof_flat) -> NoDup (keys (find_duplicates base_flat prof_flat)).
Proof.
  intros Hnd. unfold keys.
  eapply Permutation_NoDup;
    [apply Permutation_map, find_duplicates_perm|].
  now apply NoDup_keys_filter.
Qed.

Lemma duplicates_of_strict (base_docs prof_docs : list yaml) :
  StronglySorted path_lt (duplicates_of base_docs prof_docs)
  /\ (List.length (duplicates_of base_docs prof_docs)
      <= List.length (flatten (YDict (merge_docs prof_docs)) ""))%nat.
Proof.
  unfold duplicates_of. split.
  - apply strictly_sorted; [apply sort_by_path_sorted|].
    apply NoDup_keys_find_duplicates, NoDup_keys_flatten.
  - rewrite <- (Permutation_length (find_duplicates_perm _ _)).
    apply filter_length_le.
Qed.

(** A path is reported at most once for a profile: the findings are in
    strictly ascending order of their paths, and there are no more of them
    than the profile has flattened entries. *)
Theorem duplicates_strictly_sorted (base_docs prof_docs : list yaml) :
  StronglySorted path_lt (duplicates_of base_docs prof_docs)
  /\ (List.length (duplicates_of base_docs prof_docs)
      <= List.length (flatten (YDict (merge_docs prof_docs)) ""))%nat.
Proof. exact (duplicates_of_strict base_docs prof_docs). Qed.

(** *** Equality of scalars *)

Lemma SFeqb_sym (f g : spec_float) : SFeqb f g = SFeqb g f.
Proof.
  unfold SFeqb.
  destruct f as [sf | sf | | sf mf ef], g as [sg | sg | | sg mg eg];
    try reflexivity; simpl;
    try (destruct sf, sg; reflexivity); try (destruct sf; reflexivity);
    try (destruct sg; reflexivity).
  assert (Hm : Pos.compare_cont Eq mg mf = CompOpp (Pos.compare_cont Eq mf mg))
    by (symmetry; apply (Pos.compare_cont_antisym mf mg Eq)).
  rewrite (Z.compare_antisym ef eg), Hm.
  destruct sf, sg; try reflexivity;
    destruct (ef ?= eg)%Z; simpl; try reflexivity;
    destruct (Pos.compare_cont Eq mf mg); reflexivity.
Qed.

Lemma py_eq_sym (a b : scalar) : py_eq a b = py_eq b a.
Proof.
  destruct a as [s | z | f | x |], b as [t | w | g | y |]; simpl;
    try reflexivity.
  - apply String.eqb_sym.
  - apply Z.eqb_sym.
  - apply Z.eqb_sym.
  - apply SFeqb_sym.
  - apply Z.eqb_sym.
  - apply Z.eqb_sym.
Qed.

Lemma SFeqb_refl (f : spec_float) : f <> S754_nan -> SFeqb f f = true.
Proof.
  unfold SFeqb. destruct f as [s | s | | s m e]; simpl; intros H.
  - reflexivity.
  - now destruct s.
  - congruence.
  - rewrite Z.compare_refl, Pos.compare_cont_refl. now destruct s.
Qed.

Lemma py_eq_refl (s : scalar) : py_eq s s = negb (is_nan s).
Proof.
  destruct s as [t | z | f | b |]; simpl.
  - apply String.eqb_refl.
  - apply Z.eqb_refl.
  - destruct f as [sg | sg | | sg m e]; try reflexivity;
      apply SFeqb_refl; discriminate.
  - apply Z.eqb_refl.
  - reflexivity.
Qed.

Lemma matching_entries_self (d : dict scalar) :
  NoDup (keys d) ->
  matching_entries d d = filter (fun kv => negb (is_nan (snd kv))) d.
Proof.
  intros Hnd. unfold matching_entries. apply filter_ext_in.
  intros [k v] Hin. simpl. rewrite (In_dict_get k v d Hnd Hin).
  apply py_eq_refl.
Qed.

(** Comparing a file with a copy of itself reports every flattened path,
    except the paths that hold a NaN, which is not equal to itself. *)
Theorem duplicates_of_itself (docs : list yaml) :
  duplicates_of docs docs =
  sort_by_path (filter (fun kv => negb (is_nan (snd kv)))
                       (flatten (YDict (merge_docs docs)) "")).
Proof.
  unfold duplicates_of, find_duplicates.
  now rewrite matching_entries_self by apply NoDup_keys_flatten.
Qed.

Lemma In_keys_find_duplicates (a b : dict scalar) (k : string) :
  NoDup (keys b) ->
  In k (keys (find_duplicates a b)) <->
  exists va vb,
    dict_get k a = Some va /\ dict_get k b = Some vb /\ py_eq va vb = true.
Proof.
  intros Hb. unfold keys. rewrite in_map_iff. split.
  - intros [[k' vb] [E Hin]]. simpl in E. subst k'.
    apply (Permutation_in _ (Permutation_sym (find_duplicates_perm a b))) in Hin.
    apply matching_entries_In in Hin. destruct Hin as [Hin [va [Ha Heq]]].
    exists va, vb. repeat split; try assumption. now apply In_dict_get.
  - intros [va [vb [Ha [Hgb Heq]]]]. exists (k, vb). split; [reflexivity|].
    apply (Permutation_in _ (find_duplicates_perm a b)).
    apply matching_entries_In. split; [now apply dict_get_In|].
    now exists va.
Qed.

Lemma strictly_sorted_unique (l1 l2 : list string) :
  StronglySorted (fun x y => String.ltb x y = true) l1 ->
  StronglySorted (fun x y => String.ltb x y = true) l2 ->
  (forall k, In k l1 <-> In k l2) ->
  l1 = l2.
Proof.
  intros H1. revert l2. induction H1 as [|x l1 Hl1 IH Hx]; intros l2 H2 Hsame.
  - destruct l2 as [|y l2]; [reflexivity|].
    destruct (proj2 (Hsame y)). now left.
  - destruct H2 as [|y l2 Hl2 Hy].
    + destruct (proj1 (Hsame x)). now left.
    + rewrite Forall_forall in Hx, Hy.
      assert (E : x = y).
      { destruct (proj1 (Hsame x) (or_introl eq_refl)) as [E|Hin1]; [auto|].
        destruct (proj2 (Hsame y) (or_introl eq_refl)) as [E|Hin2]; [auto|].
        elim (ltb_asym x y); auto. }
      subst y. f_equal. apply IH; [assumption|].
      intros k. split; intros Hin.
      * destruct (proj1 (Hsame k) (or_intror Hin)) as [E|Hin']; [|auto].
        subst k. elim (ltb_irrefl x). auto.
      * destruct (proj2 (Hsame k) (or_intror Hin)) as [E|Hin']; [|auto].
        subst k. elim (ltb_irrefl x). auto.
Qed.

Lemma keys_strictly_sorted (l : list (string * scalar)) :
  StronglySorted path_lt l ->
  StronglySorted (fun x y => String.ltb x y = true) (keys l).
Proof.
  induction 1 as [|x l Hl IH Hx]; simpl; constructor; [assumption|].
  rewrite Forall_forall in *. intros k Hk. unfold keys in Hk.
  apply in_map_iff in Hk. destruct Hk as [y [<- Hy]]. now apply Hx.
Qed.

(** Which paths are duplicated does not depend on which of the two files is
    taken as the base: swapping them reports the same paths, in the same
    order.  Only the values shown are taken from the other file. *)
Theorem duplicates_paths_symmetric (docs1 docs2 : list yaml) :
  keys (duplicates_of docs1 docs2) = keys (duplicates_of docs2 docs1).
Proof.
  apply strictly_sorted_unique;
    try (apply keys_strictly_sorted, duplicates_of_strict).
  intros k. unfold duplicates_of.
  rewrite !In_keys_find_duplicates by apply NoDup_keys_flatten.
  split; intros [v1 [v2 [H1 [H2 Heq]]]]; exists v2, v1;
    repeat split; try assumption; now rewrite py_eq_sym.
Qed.

(** ** More on the report *)

Lemma py_len_append (a b : string) :
  py_len (a ++ b)%string = (py_len a + py_len b)%nat.
Proof.
  induction a as [|c a IH]; simpl; [reflexivity|].
  destruct (is_continuation c); now rewrite IH.
Qed.

Lemma py_len_take (s : string) :
  forall n, py_len (py_take n s) = Nat.min n (py_len s).
Proof.
  induction s as [|c s IH]; intros n; simpl.
  - now rewrite Nat.min_0_r.
  - destruct (is_continuation c) eqn:E; simpl; rewrite ?E.
    + apply IH.
    + destruct n as [|n]; simpl; [reflexivity|]. rewrite E. now rewrite IH.
Qed.

Lemma py_take_prefix (s : string) :
  forall n, exists rest, s = (py_take n s ++ rest)%string.
Proof.
  induction s as [|c s IH]; intros n; simpl.
  - now exists "".
  - destruct (is_continuation c).
    + destruct (IH n) as [rest E]. exists rest. simpl. now rewrite <- E.
    + destruct n as [|n].
      * now exists (String c s).
      * destruct (IH n) as [rest E]. exists rest. simpl. now rewrite <- E.
Qed.

(** The value shown in a finding never has more than 80 characters: when
    [repr] gives a text of at most 80 characters it is shown as it is, and a
    longer one is shown as its first 77 characters followed by three dots,
    80 characters in all.  Characters are counted as [len] counts them, not
    bytes. *)
Theorem render_value_bounded (repr : scalar -> outcome string)
  (val : scalar) (shown : string) :
  repr val = Returned shown ->
  exists text,
    render_value repr val = Returned text
    /\ (py_len text <= 80)%nat
    /\ ((py_len shown <= 80)%nat -> text = shown)
    /\ ((80 < py_len shown)%nat ->
        py_len text = 80%nat
        /\ text = (py_take 77 shown ++ "...")%string
        /\ exists rest, shown = (py_take 77 shown ++ rest)%string).
Proof.
  intros Hrepr. unfold render_value. rewrite Hrepr.
  destruct (80 <? py_len shown)%nat eqn:E; eexists; (split; [reflexivity|]).
  - apply Nat.ltb_lt in E.
    assert (Hlen : py_len (py_take 77 shown ++ "...")%string = 80%nat).
    { rewrite py_len_append, py_len_take.
      change (py_len "...") with 3%nat. lia. }
    split; [lia|]. split; [intros H; lia|].
    intros _. split; [exact Hlen|]. split; [reflexivity|].
    apply py_take_prefix.
  - apply Nat.ltb_ge in E. split; [exact E|].
    split; [reflexivity | intros H; lia].
Qed.

Lemma render_value_bounded_witness :
  (exists text,
      render_value plain_repr (SStr accented) = Returned text
      /\ (py_len text <= 80)%nat
      /\ ((py_len (plain_text (SStr accented)) <= 80)%nat ->
          text = plain_text (SStr accented))
      /\ ((80 < py_len (plain_text (SStr accented)))%nat ->
          py_len text = 80%nat
          /\ text = (py_take 77 (plain_text (SStr accented)) ++ "...")%string
          /\ exists rest,
              plain_text (SStr accented)
              = (py_take 77 (plain_text (SStr accented)) ++ rest)%string))
  /\ (py_len (plain_text (SStr accented)) <= 80)%nat
  /\ (80 < String.length (plain_text (SStr accented)))%nat.
Proof.
  split; [|split].
  - exact (render_value_bounded plain_repr (SStr accented)
             (plain_text (SStr accented)) eq_refl).
  - vm_compute. lia.
  - vm_compute. lia.
Defined.

(** A text of 42 characters in 82 bytes is shown whole; one of 83
    characters is cut. *)
Example render_value_counts_characters :
  render_value plain_repr (SStr accented)
  = Returned (plain_text (SStr accented))
  /\ render_value plain_repr (SStr (accented ++ accented))
     = Returned (py_take 77 (plain_text (SStr (accented ++ accented)))
                 ++ "...")%string.
Proof. split; vm_compute; reflexivity. Qed.

(** *** What is printed *)

Lemma report_returned (repr : scalar -> outcome string)
  (profile_path : string) (dups : list (string * scalar)) :
  forall count out out' n,
    report repr profile_path dups count out = (out', Returned n) ->
    n = (count + List.length dups)%nat
    /\ exists lines,
        out' = out ++ lines
        /\ map (finding_line repr profile_path) dups = map Returned lines.
Proof.
  induction dups as [|[key val] rest IH]; intros count out out' n; simpl.
  - unfold ret. intros [= <- <-]. split; [lia|].
    exists []. split; [now rewrite app_nil_r | reflexivity].
  - unfold bind at 1. unfold lift. unfold finding_line at 1. simpl.
    destruct (render_value repr val) as [shown|e]; [|discriminate].
    unfold bind at 1. unfold print at 1. intros H.
    apply IH in H. destruct H as [-> [lines [-> Hlines]]].
    split; [lia|]. eexists (_ :: lines).
    split; [now rewrite <- app_assoc|]. simpl. now rewrite Hlines.
Qed.

Lemma load_yaml_merged_loaded
  (read_docs : string -> outcome (list yaml))
  (merge_raises : list yaml -> option exn) (path : string)
  (out : list string) :
  match loaded read_docs merge_raises path with
  | Some docs =>
      load_yaml_merged read_docs merge_raises path out
      = (out, Returned (merge_docs docs))
  | None =>
      exists e,
        load_yaml_merged read_docs merge_raises path out = (out, Raised e)
  end.
Proof.
  unfold loaded, load_yaml_merged.
  destruct (read_docs path) as [docs|e]; [|now exists e].
  destruct (merge_raises docs) as [e|]; [now exists e | reflexivity].
Qed.

Lemma compare_and_report_loaded
  (read_docs : string -> outcome (list yaml))
  (merge_raises : list yaml -> option exn) (repr : scalar -> outcome string)
  (walk_raises : yaml -> option exn)
  (base_path profile_path : string) (base_docs prof_docs : list yaml)
  (out out' : list string) (n : nat) :
  loaded read_docs merge_raises base_path = Some base_docs ->
  loaded read_docs merge_raises profile_path = Some prof_docs ->
  compare_and_report read_docs merge_raises repr walk_raises base_path
    profile_path out
  = (out', Returned n) ->
  n = List.length (duplicates_of base_docs prof_docs)
  /\ exists lines,
      out' = out ++ lines
      /\ map (finding_line repr profile_path)
             (duplicates_of base_docs prof_docs)
         = map Returned lines.
Proof.
  intros Hbase Hprof.
  pose proof (load_yaml_merged_loaded read_docs merge_raises base_path out)
    as Lbase.
  pose proof (load_yaml_merged_loaded read_docs merge_raises profile_path out)
    as Lprof.
  rewrite Hbase in Lbase. rewrite Hprof in Lprof.
  unfold compare_and_report, bind, try, flatten_data.
  rewrite Lbase, Lprof.
  destruct (walk_raises (YDict (merge_docs base_docs))); [discriminate|].
  destruct (walk_raises (YDict (merge_docs prof_docs))); [discriminate|].
  unfold ret. intros H. apply report_returned in H. exact H.
Qed.

(** When both files load and [compare_and_report] returns, it has printed
    exactly one line for each finding, in ascending order of the paths, each
    naming the profile file, the path and the value shown, and the number
    it returns is the number of findings. *)
Theorem compare_and_report_output
  (read_docs : string -> outcome (list yaml))
  (merge_raises : list yaml -> option exn) (repr : scalar -> outcome string)
  (walk_raises : yaml -> option exn)
  (base_path profile_path : string) (base_docs prof_docs : list yaml)
  (out out' : list string) (n : nat) :
  loaded read_docs merge_raises base_path = Some base_docs ->
  loaded read_docs merge_raises profile_path = Some prof_docs ->
  compare_and_report read_docs merge_raises repr walk_raises base_path
    profile_path out
  = (out', Returned n) ->
  n = List.length (duplicates_of base_docs prof_docs)
  /\ exists lines,
      out' = out ++ lines
      /\ map (finding_line repr profile_path)
             (duplicates_of base_docs prof_docs)
         = map Returned lines.
Proof.
  exact (compare_and_report_loaded read_docs merge_raises repr walk_raises
      base_path
           profile_path base_docs prof_docs out out' n).
Qed.

Lemma compare_and_report_output_witness :
  4%nat = List.length (duplicates_of [server_doc] [server_doc])
  /\ exists lines,
      ["ERROR: application-prod.yaml: key 'debug' duplicates base value False";
       "ERROR: application-prod.yaml: key 'server.hosts[0]' duplicates base value 'a'";
       "ERROR: application-prod.yaml: key 'server.hosts[1]' duplicates base value 'b'";
       "ERROR: application-prod.yaml: key 'server.port' duplicates base value 8080"]
      = [] ++ lines
      /\ map (finding_line plain_repr "application-prod.yaml")
             (duplicates_of [server_doc] [server_doc])
         = map Returned lines.
Proof.
  apply (compare_and_report_output broken_profile no_merge_limit plain_repr
      no_limit
           "application.yaml" "application-prod.yaml"
           [server_doc] [server_doc] []); reflexivity.
Defined.

(** An exception of [repr] or of [flatten] is not caught: the comparison
    raises it, after the lines already printed. *)
Example compare_and_report_raises :
  compare_and_report broken_profile no_merge_limit (limited_repr 3) no_limit
    "application.yaml" "application-prod.yaml" []
  = (["ERROR: application-prod.yaml: key 'debug' duplicates base value False";
      "ERROR: application-prod.yaml: key 'server.hosts[0]' duplicates base value 'a'";
      "ERROR: application-prod.yaml: key 'server.hosts[1]' duplicates base value 'b'"],
     Raised "Exceeds the limit for integer string conversion")
  /\ compare_and_report nested_files no_merge_limit plain_repr shallow_only
       "application.yaml" "application-dev.yaml" []
     = ([], Raised "maximum recursion depth exceeded").
Proof. split; vm_compute; reflexivity. Qed.

Lemma compare_and_report_count
  (read_docs : string -> outcome (list yaml))
  (merge_raises : list yaml -> option exn) (repr : scalar -> outcome string)
  (walk_raises : yaml -> option exn)
  (base_path profile_path : string) (out out' : list string) (n : nat) :
  compare_and_report read_docs merge_raises repr walk_raises base_path
    profile_path out
  = (out', Returned n) ->
  n = pair_count read_docs merge_raises base_path profile_path.
Proof.
  unfold pair_count.
  pose proof (load_yaml_merged_loaded read_docs merge_raises base_path out)
    as Lbase.
  pose proof (load_yaml_merged_loaded read_docs merge_raises profile_path out)
    as Lprof.
  destruct (loaded read_docs merge_raises base_path) as [base_docs|] eqn:Hbase.
  - destruct (loaded read_docs merge_raises profile_path) as [prof_docs|]
      eqn:Hprof.
    + intros H.
      now destruct (compare_and_report_loaded _ _ _ _ _ _ _ _ _ _ _
                      Hbase Hprof H).
    + destruct Lprof as [e Lprof].
      unfold compare_and_report, bind, try, print, ret.
      rewrite Lbase, Lprof. now intros [= _ <-].
  - destruct Lbase as [e Lbase].
    unfold compare_and_report, bind, try, print, ret.
    rewrite Lbase. now intros [= _ <-].
Qed.

Lemma process_profiles_sum
  (read_docs : string -> outcome (list yaml))
  (merge_raises : list yaml -> option exn) (repr : scalar -> outcome string)
  (walk_raises : yaml -> option exn)
  (base_path : string) (profiles : list string) :
  forall total out out' n,
    process_profiles read_docs merge_raises repr walk_raises base_path profiles
        total out
    = (out', Returned n) ->
    n = (total + list_sum (map (pair_count read_docs merge_raises base_path)
        profiles))%nat.
Proof.
  induction profiles as [|prof rest IH]; intros total out out' n; simpl.
  - unfold ret. intros [= _ <-]. lia.
  - unfold bind at 1.
    destruct (compare_and_report read_docs merge_raises repr walk_raises
        base_path prof out)
      as [out1 [n1|e]] eqn:E1; [|discriminate].
    apply compare_and_report_count in E1. intros H. apply IH in H. lia.
Qed.

(** Whenever the loop over the profiles of a folder returns, its total is
    the starting total plus the sum, over the profiles, of the number of
    findings of each pair that loads; a pair that does not load counts for
    nothing. *)
Theorem process_profiles_total
  (read_docs : string -> outcome (list yaml))
  (merge_raises : list yaml -> option exn) (repr : scalar -> outcome string)
  (walk_raises : yaml -> option exn)
  (base_path : string) (profiles : list string)
  (total : nat) (out out' : list string) (n : nat) :
  process_profiles read_docs merge_raises repr walk_raises base_path profiles
      total out
  = (out', Returned n) ->
  n = (total + list_sum (map (pair_count read_docs merge_raises base_path)
      profiles))%nat.
Proof.
  exact (process_profiles_sum read_docs merge_raises repr walk_raises base_path
      profiles
           total out out' n).
Qed.

Lemma process_profiles_total_witness :
  4%nat
  = (0 + list_sum (map (pair_count broken_profile no_merge_limit
      "application.yaml")
                       ["application-dev.yaml"; "application-prod.yaml"]))%nat.
Proof.
  eapply (process_profiles_total broken_profile no_merge_limit plain_repr
      no_limit
            "application.yaml"
            ["application-dev.yaml"; "application-prod.yaml"] 0 [] _ 4).
  vm_compute. reflexivity.
Defined.

(** ** Folders and the command line *)

Lemma ltb_leb (a b : string) : String.ltb a b = true -> String.leb a b = true.
Proof.
  unfold String.ltb, String.leb. now destruct (String.compare a b).
Qed.

Lemma ltb_neq (a b : string) : String.ltb a b = true -> a <> b.
Proof. intros H ->. exact (ltb_irrefl b H). Qed.

Lemma ltb_trans (a b c : string) :
  String.ltb a b = true -> String.ltb b c = true -> String.ltb a c = true.
Proof.
  intros Hab Hbc. apply ltb_of_leb.
  - eapply leb_trans; apply ltb_leb; eassumption.
  - intros ->. exact (ltb_asym c b Hab Hbc).
Qed.

Lemma In_insert_name (x z : string) (l : list string) :
  In z (insert_name x l) <-> z = x \/ In z l.
Proof.
  induction l as [|y l IH]; simpl.
  - intuition.
  - destruct (String.eqb x y) eqn:E.
    + apply String.eqb_eq in E. subst y. simpl. intuition.
    + destruct (String.leb x y); simpl; [intuition|].
      rewrite IH. intuition.
Qed.

Lemma insert_name_sorted (x : string) (l : list string) :
  StronglySorted name_lt l -> StronglySorted name_lt (insert_name x l).
Proof.
  induction l as [|y l IH]; simpl; intros Hl.
  - repeat constructor.
  - inversion Hl as [|? ? Hl' Hy]; subst.
    destruct (String.eqb x y) eqn:E; [assumption|].
    apply String.eqb_neq in E.
    destruct (String.leb x y) eqn:L.
    + assert (Hxy : name_lt x y) by now apply ltb_of_leb.
      constructor; [assumption|]. constructor; [exact Hxy|].
      eapply Forall_impl; [|exact Hy]. intros z Hz.
      unfold name_lt in *. eapply ltb_trans; eassumption.
    + constructor; [auto|]. rewrite Forall_forall in *.
      intros z Hz. apply In_insert_name in Hz. destruct Hz as [->|Hz]; [|auto].
      apply ltb_of_leb; [|congruence].
      destruct (String.leb_total x y); congruence.
Qed.

Lemma sorted_set_sorted (l : list string) :
  StronglySorted name_lt (sorted_set l).
Proof.
  induction l as [|x l IH]; simpl; [constructor|].
  now apply insert_name_sorted.
Qed.

Lemma In_sorted_set (z : string) (l : list string) :
  In z (sorted_set l) <-> In z l.
Proof.
  induction l as [|x l IH]; simpl; [reflexivity|].
  rewrite In_insert_name, IH. intuition.
Qed.

Lemma filter_sorted (f : string -> bool) (l : list string) :
  StronglySorted name_lt l -> StronglySorted name_lt (filter f l).
Proof.
  induction 1 as [|x l Hl IH Hx]; simpl; [constructor|].
  destruct (f x); [|assumption]. constructor; [assumption|].
  rewrite Forall_forall in *. intros z Hz. apply filter_In in Hz. now apply Hx.
Qed.

(** The profile files of a folder are compared in strictly ascending order
    of their names, so none is compared twice even when both patterns
    match it; they are the names the patterns match, and never a base file. *)
Theorem folder_profiles_spec (glob : string -> string -> list string)
  (folder : string) :
  StronglySorted name_lt (folder_profiles glob folder)
  /\ (forall name,
         In name (folder_profiles glob folder) <->
         In name (find_profile_files glob folder)
         /\ name <> "application.yaml" /\ name <> "application.yml").
Proof.
  unfold folder_profiles. split.
  - apply filter_sorted, sorted_set_sorted.
  - intros name. rewrite filter_In, In_sorted_set.
    unfold is_base_name, base_names. simpl.
    rewrite negb_true_iff, orb_false_r, orb_false_iff, !String.eqb_neq.
    reflexivity.
Qed.

Lemma folder_profiles_spec_witness :
  folder_profiles demo_glob "svc"
  = ["application-dev-us.yaml"; "application-dev.yaml"; "application-prod.yml"]
  /\ StronglySorted name_lt (folder_profiles demo_glob "svc")
  /\ (In "application-dev-us.yaml" (folder_profiles demo_glob "svc") <->
      In "application-dev-us.yaml" (find_profile_files demo_glob "svc")
      /\ "application-dev-us.yaml" <> "application.yaml"
      /\ "application-dev-us.yaml" <> "application.yml").
Proof.
  split; [reflexivity|].
  destruct (folder_profiles_spec demo_glob "svc") as [Hsorted Hin].
  split; [exact Hsorted | exact (Hin "application-dev-us.yaml")].
Defined.

Lemma process_folder_sum
  (read_docs : string -> outcome (list yaml))
  (merge_raises : list yaml -> option exn) (repr : scalar -> outcome string)
  (walk_raises : yaml -> option exn)
  (join : string -> string -> string) (path_exists : string -> bool)
  (glob : string -> string -> list string) (folder : string)
  (out out' : list string) (n : nat) :
  process_folder read_docs merge_raises repr walk_raises join path_exists glob
      folder out
  = (out', Returned n) ->
  n = folder_count read_docs merge_raises join path_exists glob folder
  /\ (find_base join path_exists folder = None -> out' = out).
Proof.
  unfold process_folder, folder_count.
  destruct (find_base join path_exists folder) as [base_path|].
  - destruct (folder_profiles glob folder) as [|p ps] eqn:Hprofiles.
    + unfold bind, print, ret. intros [= _ <-]. split; [reflexivity|discriminate].
    + clear Hprofiles. generalize (p :: ps). intros profiles.
      unfold bind at 1 2 3. unfold print at 1 2. cbv beta iota.
      destruct (process_profiles read_docs merge_raises repr walk_raises
          base_path
                  (map (join folder) profiles) 0 _)
        as [out1 [total|e]] eqn:E; [|discriminate].
      apply process_profiles_sum in E. rewrite map_map, Nat.add_0_l in E.
      subst total.
      destruct (list_sum _ =? 0)%nat; unfold bind, print, ret;
        intros [= _ <-]; (split; [reflexivity|discriminate]).
  - unfold ret. intros [= <- <-]. split; reflexivity.
Qed.

(** Whenever [process_folder] returns, it returns the number of findings
    of the folder: the sum, over the profile files it compares, of the
    findings against the first base candidate that exists; for a folder
    without a base file that is 0, and nothing has been printed. *)
Theorem process_folder_total
  (read_docs : string -> outcome (list yaml))
  (merge_raises : list yaml -> option exn) (repr : scalar -> outcome string)
  (walk_raises : yaml -> option exn)
  (join : string -> string -> string) (path_exists : string -> bool)
  (glob : string -> string -> list string) (folder : string)
  (out out' : list string) (n : nat) :
  process_folder read_docs merge_raises repr walk_raises join path_exists glob
      folder out
  = (out', Returned n) ->
  n = folder_count read_docs merge_raises join path_exists glob folder
  /\ (find_base join path_exists folder = None -> out' = out).
Proof.
  exact (process_folder_sum read_docs merge_raises repr walk_raises join
      path_exists glob
           folder out out' n).
Qed.

Lemma process_folder_total_witness :
  (4%nat = folder_count demo_read no_merge_limit demo_join demo_exists demo_glob
      "svc")
  /\ (0%nat = folder_count demo_read no_merge_limit demo_join demo_exists
      demo_glob "svc/empty"
      /\ (find_base demo_join demo_exists "svc/empty" = None ->
          @nil string = [])).
Proof.
  split.
  - eapply (process_folder_total demo_read no_merge_limit plain_repr no_limit
      demo_join
              demo_exists demo_glob "svc" [] _ 4).
    vm_compute. reflexivity.
  - apply (process_folder_total demo_read no_merge_limit plain_repr no_limit
      demo_join
             demo_exists demo_glob "svc/empty" [] [] 0).
    reflexivity.
Defined.

Lemma walk_folders_sum
  (read_docs : string -> outcome (list yaml))
  (merge_raises : list yaml -> option exn) (repr : scalar -> outcome string)
  (walk_raises : yaml -> option exn)
  (join : string -> string -> string) (path_exists : string -> bool)
  (glob : string -> string -> list string)
  (entries : list (string * list string)) :
  forall total out out' n,
    walk_folders read_docs merge_raises repr walk_raises join path_exists glob
        entries
      total out
    = (out', Returned n) ->
    n = (total +
         list_sum
           (map (fun entry =>
                   if has_base (snd entry)
                   then folder_count read_docs merge_raises join path_exists
                       glob
                          (fst entry)
                   else 0%nat) entries))%nat.
Proof.
  induction entries as [|[dirpath filenames] rest IH];
    intros total out out' n; simpl.
  - unfold ret. intros [= _ <-]. lia.
  - destruct (has_base filenames).
    + unfold bind at 1.
      destruct (process_folder read_docs merge_raises repr walk_raises join
          path_exists
                  glob dirpath out) as [out1 [n1|e]] eqn:E1; [|discriminate].
      apply process_folder_sum in E1. destruct E1 as [-> _].
      intros H. apply IH in H. lia.
    + intros H. apply IH in H. lia.
Qed.

(** The status with which [main] ends, whenever it ends by [SystemExit] and
    not by an exception that got through: 2 when the root does not exist or
    is not a directory, and then only the line that says so has been
    printed; otherwise 1 when the folders that [os.walk] lists with a base
    file have at least one finding among them, and 0 when they have none. *)
Theorem main_exit_status
  (read_docs : string -> outcome (list yaml))
  (merge_raises : list yaml -> option exn) (repr : scalar -> outcome string)
  (walk_raises : yaml -> option exn)
  (join : string -> string -> string) (path_exists is_dir : string -> bool)
  (glob : string -> string -> list string)
  (os_walk : string -> list (string * list string))
  (root : string) (out out' : list string) (status : nat) :
  main read_docs merge_raises repr walk_raises join path_exists is_dir glob
      os_walk root out
  = (out', Returned status) ->
  status
  = (if negb (path_exists root) || negb (is_dir root) then 2
     else if (0 <? tree_count read_docs merge_raises join path_exists glob
         os_walk root)%nat
          then 1 else 0)%nat
  /\ (negb (path_exists root) || negb (is_dir root) = true ->
      out' = out ++ [("ERROR: '" ++ root ++ "' is not a directory.")%string]).
Proof.
  unfold main.
  destruct (negb (path_exists root) || negb (is_dir root)).
  - unfold bind, print, ret. intros [= <- <-]. split; reflexivity.
  - unfold walk_and_check, bind at 1.
    destruct (walk_folders read_docs merge_raises repr walk_raises join
        path_exists glob
                (os_walk root) 0 out) as [out1 [total|e]] eqn:E; [|discriminate].
    apply walk_folders_sum in E. rewrite Nat.add_0_l in E.
    fold (tree_count read_docs merge_raises join path_exists glob os_walk root)
        in E.
    subst total.
    destruct (0 <? tree_count read_docs merge_raises join path_exists glob
        os_walk root)%nat;
      unfold bind, print, ret; intros [= _ <-];
      (split; [reflexivity|discriminate]).
Qed.

Lemma main_exit_status_witness :
  (1%nat
   = (if negb (demo_exists "svc") || negb (demo_is_dir "svc") then 2
      else if (0 <? tree_count demo_read no_merge_limit demo_join demo_exists
          demo_glob
                      demo_walk "svc")%nat
           then 1 else 0)%nat)
  /\ (2%nat
      = (if negb (demo_exists "nowhere") || negb (demo_is_dir "nowhere") then 2
         else if (0 <? tree_count demo_read no_merge_limit demo_join demo_exists
             demo_glob
                         demo_walk "nowhere")%nat
              then 1 else 0)%nat
      /\ (negb (demo_exists "nowhere") || negb (demo_is_dir "nowhere") = true ->
          ["ERROR: 'nowhere' is not a directory."]
          = [] ++ [("ERROR: '" ++ "nowhere" ++ "' is not a directory.")%string])).
Proof.
  split.
  - eapply (main_exit_status demo_read no_merge_limit plain_repr no_limit
      demo_join
              demo_exists demo_is_dir demo_glob demo_walk "svc" [] _ 1).
    vm_compute. reflexivity.
  - apply (main_exit_status demo_read no_merge_limit plain_repr no_limit
      demo_join
             demo_exists demo_is_dir demo_glob demo_walk "nowhere" []
             ["ERROR: 'nowhere' is not a directory."] 2).
    reflexivity.
Defined.

(** The whole run on the small tree. *)
Example main_on_demo_tree :
  main demo_read no_merge_limit plain_repr no_limit demo_join demo_exists
      demo_is_dir
    demo_glob demo_walk "svc" []
  = ([(nl ++ "Folder: svc")%string;
      "Base:   svc/application.yaml";
      "ERROR: svc/application-dev-us.yaml: key 'debug' duplicates base value False";
      "ERROR: svc/application-dev-us.yaml: key 'server.hosts[0]' duplicates base value 'a'";
      "ERROR: svc/application-dev-us.yaml: key 'server.hosts[1]' duplicates base value 'b'";
      "ERROR: svc/application-dev-us.yaml: key 'server.port' duplicates base value 8080";
      "ERROR: Failed to load profile YAML 'svc/application-dev.yaml': mapping values are not allowed here";
      (nl ++ "Completed with 4 duplicated key value(s) found.")%string],
     Returned 1%nat).
Proof. vm_compute. reflexivity. Qed.

(** With a [repr] that refuses the port, the exception goes through [main]:
    no status is given. *)
Example main_lets_exceptions_through :
  snd (main demo_read no_merge_limit (limited_repr 3) no_limit demo_join
      demo_exists
         demo_is_dir demo_glob demo_walk "svc" [])
  = Raised "Exceeds the limit for integer string conversion".
Proof. vm_compute. reflexivity. Qed.

(** ** Later documents *)

Lemma merge_docs_snoc (docs : list yaml) (b : dict yaml) :
  merge_docs (docs ++ [YDict b]) = deep_merge (merge_docs docs) b.
Proof. unfold merge_docs. now rewrite fold_left_app. Qed.

(** Later documents override earlier ones: a value of the last document of
    a file that is not a mapping, at any depth, is the value the loaded file
    has at that path of keys, whatever the documents before it hold; and
    along a path the last document does not reach, the loaded file holds
    what the documents before it give. *)
Theorem merge_docs_last_wins (docs : list yaml) (b : dict yaml)
  (ks : list string) :
  distinct_deep (YDict b) = true ->
  (forall v, get_in ks (YDict b) = Some v -> is_dict v = false ->
             get_in ks (YDict (merge_docs (docs ++ [YDict b]))) = Some v)
  /\ (untouched ks (YDict b) = true ->
      get_in ks (YDict (merge_docs (docs ++ [YDict b])))
      = get_in ks (YDict (merge_docs docs))).
Proof.
  intros Hwf. rewrite merge_docs_snoc. split.
  - intros v Hget Hv. now apply get_in_deep_merge_set.
  - intros Hun. now apply get_in_deep_merge_kept.
Qed.

Lemma merge_docs_last_wins_witness :
  get_in ["server"; "port"]
    (YDict (merge_docs ([server_doc; YScalar SNone] ++ [prod_doc])))
  = Some (YScalar (SInt 9090)).
Proof.
  destruct (merge_docs_last_wins [server_doc; YScalar SNone]
              [("server", YDict [("port", YScalar (SInt 9090));
                                 ("hosts", YList [YScalar (SStr "c")])]);
               ("debug", YScalar (SBool true))]
              ["server"; "port"] eq_refl) as [Hwin _].
  exact (Hwin (YScalar (SInt 9090)) eq_refl eq_refl).
Defined.
